(** * Cloud environments of the cross-platform CLI: lib/util/profile/environment.js

    A shallow embedding of the [Environment] class (parameter registry,
    accessors, serialisation, realm rewriting, authentication configuration
    and the [addAccount] login orchestration) and the properties its
    specification states about it. *)

From Stdlib Require Import ZArith Ascii String List.
From stdpp Require Import gmap strings list fin_maps pretty.

Open Scope string_scope.

(** ** JavaScript values *)

(** The values this file handles: the two empty values, booleans, integral
    numbers, strings, and objects known only by their identity (errors,
    tokens, credentials). *)
Inductive jsval : Type :=
| VUndefined
| VNull
| VBool (b : bool)
| VNum (n : Z)
| VStr (s : string)
| VObj (ref : string).

#[global] Instance jsval_eq_dec : EqDecision jsval.
Proof. solve_decision. Defined.

(** [ToBoolean]: what [if (v)], [!v], [a || b] and [c ? a : b] test. *)
Definition truthy (v : jsval) : bool :=
  match v with
  | VUndefined | VNull => false
  | VBool b => b
  | VNum n => negb (Z.eqb n 0)
  | VStr s => negb (String.eqb s "")
  | VObj _ => true
  end.

(** [a || b] *)
Definition js_or (a b : jsval) : jsval := if truthy a then a else b.

(** [a === b] on the values above. *)
Definition strict_eq (a b : jsval) : bool := bool_decide (a = b).

(** A plain object used as a map from property names to values. *)
Abbreviation jsobj := (gmap string jsval).

(** [o[k]]: a missing property reads as [undefined]. *)
Definition prop (o : jsobj) (k : string) : jsval := default VUndefined (o !! k).

(** [process.env[k]]: a string when the variable is set, [undefined] otherwise. *)
Definition process_env_lookup (penv : gmap string string) (k : string) : jsval :=
  match penv !! k with
  | Some s => VStr s
  | None => VUndefined
  end.

(** ** Synchronous failures *)

Inductive jserror : Type :=
| EndpointNotDefined (field : string)
| TypeError (msg : string).

(** The text of the error, [util.format] having put the field name in place
    of [%s] (the locale table is the identity on the English text). *)
Definition error_message (e : jserror) : string :=
  match e with
  | EndpointNotDefined field =>
      "The endpoint field " +:+ field +:+
      " is not defined in this environment." +:+
      " Either this feature is not supported or the endpoint needs to be set using 'azure account env set'"
  | TypeError msg => msg
  end.

(** The outcome of a call that may [throw]. *)
Inductive result (A : Type) : Type :=
| Ok (a : A)
| Throw (e : jserror).
Arguments Ok {A} a.
Arguments Throw {A} e.

Definition rbind {A B : Type} (r : result A) (k : A -> result B) : result B :=
  match r with
  | Ok a => k a
  | Throw e => Throw e
  end.

Notation "'let*' x ':=' r 'in' k" := (rbind r (fun x => k))
  (at level 10, x name, r at level 100, k at level 200).

(** ** underscore helpers *)

(** [_.defaults(obj, source)]: every property of [source] that [obj] lacks
    is copied from [source].  What "lacks" tests changed between releases
    of underscore: [obj[prop] == null] in 1.4, [obj[prop] === undefined]
    from 1.5 on.  The source being all [null] here, both give the same
    object ([defaults_either_test] below). *)
Definition nullish (v : jsval) : bool :=
  match v with
  | VUndefined | VNull => true
  | _ => false
  end.

Definition is_undefined (v : jsval) : bool :=
  match v with
  | VUndefined => true
  | _ => false
  end.

Definition defaults_when (lacks : jsval -> bool) (obj source : jsobj) : jsobj :=
  merge (fun o s =>
           match o, s with
           | Some v, Some d => if lacks v then Some d else Some v
           | None, Some d => Some d
           | Some v, None => Some v
           | None, None => None
           end) obj source.

Definition defaults (obj source : jsobj) : jsobj := defaults_when nullish obj source.

(** [_.extend(dst, source)]: every property of [source] is written over [dst]. *)
Definition extend (dst source : jsobj) : jsobj := source ∪ dst.

(** [_.pluck(list, key)] and [_.contains(list, x)] *)
Definition pluck {A B : Type} (f : A -> B) (l : list A) : list B := map f l.

Definition contains (l : list jsval) (x : jsval) : bool := existsb (strict_eq x) l.

(** ** The parameter registry *)

Record EnvironmentParameter : Type := mkEnvironmentParameter {
  pname : string;
  environmentVariable : string;
  description : string
}.

#[global] Instance EnvironmentParameter_eq_dec : EqDecision EnvironmentParameter.
Proof. solve_decision. Defined.

Definition parameters : list EnvironmentParameter := [
  mkEnvironmentParameter "portalUrl" "AZURE_PORTAL_URL" "the management portal URL";
  mkEnvironmentParameter "publishingProfileUrl" "AZURE_PUBLISHINGPROFILE_URL" "the publish settings file URL";
  mkEnvironmentParameter "managementEndpointUrl" "AZURE_MANAGEMENTENDPOINT_URL" "the management service endpoint";
  mkEnvironmentParameter "resourceManagerEndpointUrl" "AZURE_RESOURCEMANAGERENDPOINT_URL" "the resource management endpoint";
  mkEnvironmentParameter "sqlManagementEndpointUrl" "AZURE_SQL_MANAGEMENTENDPOINT_URL" "the sql server management endpoint for mobile commands";
  mkEnvironmentParameter "sqlServerHostnameSuffix" "AZURE_SQL_SERVER_HOSTNAME_SUFFIX" "the dns suffix for sql servers";
  mkEnvironmentParameter "activeDirectoryEndpointUrl" "AZURE_ACTIVEDIRECTORY_ENDPOINT_URL" "the Active Directory login endpoint";
  mkEnvironmentParameter "activeDirectoryResourceId" "AZURE_ACTIVEDIRECTORY_RESOURCE_ID" "The resource ID to obtain AD tokens for";
  mkEnvironmentParameter "commonTenantName" "AZURE_ACTIVEDIRECTORY_COMMON_TENANT_NAME" "the Active Directory common tenant name";
  mkEnvironmentParameter "galleryEndpointUrl" "AZURE_GALLERY_ENDPOINT_URL" "the template gallery endpoint";
  mkEnvironmentParameter "activeDirectoryGraphResourceId" "AZURE_ACTIVEDIRECTORY_GRAPH_RESOURCE_ID" "the Active Directory resource ID";
  mkEnvironmentParameter "activeDirectoryGraphApiVersion" "AZURE_ACTIVEDIRECTORY_GRAPH_API_VERSION" "the Active Directory api version"
].

(** ** Environment *)

(** An instance: its own [name] property and the [values] object behind the
    accessor of the same name.  [values] is the very object handed to the
    constructor, so it also carries [name] and any other property of it. *)
Record EnvironmentObj : Type := mkEnvironmentObj {
  name : jsval;
  values : jsobj
}.

#[global] Instance EnvironmentObj_eq_dec : EqDecision EnvironmentObj.
Proof. solve_decision. Defined.

(** [nulls(properties)] *)
Definition nulls (properties : list string) : jsobj :=
  foldl (fun acc p => <[p := VNull]> acc) ∅ properties.

(** [new Environment(envData)].  Binding the accessors reads nothing. *)
Definition Environment (envData : jsobj) : EnvironmentObj :=
  {| name := prop envData "name";
     values := defaults envData (nulls (pluck pname parameters)) |}.

(** The getter bound by [propertyDescriptor]: reading [env[param.name]]. *)
Definition get (penv : gmap string string) (env : EnvironmentObj)
    (param : EnvironmentParameter) : result jsval :=
  let val := js_or (process_env_lookup penv (environmentVariable param))
                   (prop (values env) (pname param)) in
  if strict_eq val VNull then Throw (EndpointNotDefined (pname param))
  else Ok val.

(** The setter bound by [propertyDescriptor]: [env[param.name] = value].
    It writes to [values] alone; the process environment is not among the
    things it can reach. *)
Definition set (env : EnvironmentObj) (param : EnvironmentParameter)
    (value : jsval) : EnvironmentObj :=
  {| name := name env;
     values := <[pname param := value]> (values env) |}.

(** The registered parameter of a given name. *)
Definition parameter (n : string) : option EnvironmentParameter :=
  find (fun p => String.eqb (pname p) n) parameters.

(** [toJSON] *)
Definition toJSON (env : EnvironmentObj) : jsobj :=
  extend {[ "name" := name env ]} (values env).

(** [env[n]] for the name [n] of a registered parameter. *)
Definition accessor (penv : gmap string string) (env : EnvironmentObj)
    (n : string) : result jsval :=
  match parameter n with
  | Some p => get penv env p
  | None => Ok VUndefined
  end.

(** ** Node's [url] and [querystring], as far as [addRealm] uses them

    [url.parse] does more than take a URL apart: it lower-cases the scheme
    and the host, gives a host-only URL the path [/], decodes the
    credentials before an [@] (and throws when they cannot be decoded),
    trims white space and escapes a dozen characters; V8 lists the
    keys of an object that look like array indices before the others, and
    prints numbers as doubles.  None of that is modelled.  The functions
    below cover the URLs for which none of it occurs, and return [None],
    which stands for no statement at all, on anything else:

    - before the query: [http://] or [https://] in lower case, a host of
      lower-case labels, possibly a port, and a path ([canonical_prefix]);
      that text [url.format] writes back as read;
    - in the query and the fragment: printable ASCII but for the
      characters [url.parse] escapes, [%] only at the head of an escape of
      an ASCII character ([plain_text], [escapes_ok]);
    - no empty piece and no empty key in the query, no key that is made of
      digits, no key [__proto__] ([piece_ok]): what those give depends on
      the release of Node or on V8's order of keys;
    - as realm a string, a boolean or an integer that a double holds
      exactly ([stringifyPrimitive]).

    A string stands for the text whose UTF-8 encoding it is. *)

(** The text before the first [c], and the text from that [c] on. *)
Fixpoint break_at (c : ascii) (s : string) : option (string * string) :=
  match s with
  | EmptyString => None
  | String a s' =>
      if Ascii.eqb a c then Some (EmptyString, s)
      else match break_at c s' with
           | Some (before, rest) => Some (String a before, rest)
           | None => None
           end
  end.

(** [s.substr(1)] *)
Definition tail_string (s : string) : string :=
  match s with
  | EmptyString => EmptyString
  | String _ s' => s'
  end.

(** [s.split(c)] *)
Fixpoint split_on (c : ascii) (s : string) : list string :=
  match s with
  | EmptyString => [EmptyString]
  | String a s' =>
      if Ascii.eqb a c then EmptyString :: split_on c s'
      else match split_on c s' with
           | piece :: pieces => String a piece :: pieces
           | [] => [String a EmptyString]
           end
  end.

(** [l.join(sep)] *)
Definition join (sep : string) (l : list string) : string := String.concat sep l.

(** A property of the parsed query: one value, or an array of them when
    the key occurs more than once. *)
Inductive qvalue : Type :=
| QVal (v : jsval)
| QArr (vs : list jsval).

(** The parsed query, its keys in the order they were first written. *)
Abbreviation query_object := (list (string * qvalue)).

Record urlObject : Type := mkUrlObject {
  url_base : string;
  url_search : option string;
  url_query : query_object;
  url_hash : option string
}.

(** *** Characters *)

Definition is_digit (c : ascii) : bool :=
  let n := N_of_ascii c in ((48 <=? n) && (n <=? 57))%N.

Definition is_lower (c : ascii) : bool :=
  let n := N_of_ascii c in ((97 <=? n) && (n <=? 122))%N.

Definition is_upper (c : ascii) : bool :=
  let n := N_of_ascii c in ((65 <=? n) && (n <=? 90))%N.

(** [encodeURIComponent] leaves these characters as they are. *)
Definition unreserved (c : ascii) : bool :=
  let n := N_of_ascii c in
  ((65 <=? n) && (n <=? 90) || (97 <=? n) && (n <=? 122) ||
   (48 <=? n) && (n <=? 57))%N
  || existsb (Ascii.eqb c) (list_ascii_of_string "-_.!~*'()").

(** The printable ASCII characters that [url.parse] leaves as written:
    all but the double and the single quote, [<], [>], the backslash, [^],
    the backquote, [{], [|] and [}]. *)
Definition plain_char (c : ascii) : bool :=
  let n := N_of_ascii c in
  ((33 <=? n) && (n <=? 126))%N &&
  negb (existsb (N.eqb n) [34; 39; 60; 62; 92; 94; 96; 123; 124; 125]%N).

Definition plain_text (s : string) : bool :=
  forallb plain_char (list_ascii_of_string s).

Definition hex_digit (n : N) : ascii :=
  if (n <? 10)%N then ascii_of_N (48 + n) else ascii_of_N (55 + n).

Definition hex_value (c : ascii) : option N :=
  let n := N_of_ascii c in
  if ((48 <=? n) && (n <=? 57))%N then Some (n - 48)%N
  else if ((65 <=? n) && (n <=? 70))%N then Some (n - 55)%N
  else if ((97 <=? n) && (n <=? 102))%N then Some (n - 87)%N
  else None.

(** Every [%] starts the escape of an ASCII character. *)
Fixpoint escapes_ok (s : string) : bool :=
  match s with
  | EmptyString => true
  | String c s' =>
      if Ascii.eqb c "%" then
        match s' with
        | String h (String l s'') =>
            match hex_value h, hex_value l with
            | Some x, Some y => (16 * x + y <? 128)%N && escapes_ok s''
            | _, _ => false
            end
        | _ => false
        end
      else escapes_ok s'
  end.

(** *** [querystring] *)

(** [querystring.escape] *)
Fixpoint qs_escape (s : string) : string :=
  match s with
  | EmptyString => EmptyString
  | String c s' =>
      if unreserved c then String c (qs_escape s')
      else let n := N_of_ascii c in
           String "%" (String (hex_digit (n / 16)) (String (hex_digit (n mod 16))
             (qs_escape s')))
  end.

(** [querystring.unescape] after [+] has been turned into [%20]. *)
Fixpoint qs_unescape (s : string) : string :=
  match s with
  | EmptyString => EmptyString
  | String c s' =>
      if Ascii.eqb c "+" then String " " (qs_unescape s')
      else if Ascii.eqb c "%" then
        match s' with
        | String h (String l s'') =>
            match hex_value h, hex_value l with
            | Some x, Some y => String (ascii_of_N (16 * x + y)) (qs_unescape s'')
            | _, _ => String c (qs_unescape s')
            end
        | _ => String c (qs_unescape s')
        end
      else String c (qs_unescape s')
  end.

(** [obj[k] = v] for a key not seen yet, [obj[k].push(v)] or
    [obj[k] = [obj[k], v]] for one seen before. *)
Fixpoint qs_add (k : string) (v : jsval) (q : query_object) : query_object :=
  match q with
  | [] => [(k, QVal v)]
  | (k', x) :: q' =>
      if String.eqb k' k then
        (k', match x with
             | QVal v0 => QArr [v0; v]
             | QArr vs => QArr (vs ++ [v])
             end) :: q'
      else (k', x) :: qs_add k v q'
  end.

(** The text of the key of one [key=value] piece of the query string. *)
Definition key_text (x : string) : string :=
  match break_at "=" x with
  | Some (kstr, _) => kstr
  | None => x
  end.

(** The key and the value of one piece, decoded. *)
Definition qs_pair (x : string) : string * string :=
  match break_at "=" x with
  | Some (kstr, rest) => (qs_unescape kstr, qs_unescape (tail_string rest))
  | None => (qs_unescape x, "")
  end.

(** A key that may be an array index. *)
Definition digits_only (k : string) : bool :=
  negb (String.eqb k "") && forallb is_digit (list_ascii_of_string k).

(** The pieces whose reading is modelled. *)
Definition piece_ok (x : string) : bool :=
  plain_text x && escapes_ok x && negb (String.eqb (key_text x) "") &&
  negb (digits_only (fst (qs_pair x))) &&
  negb (String.eqb (fst (qs_pair x)) "__proto__").

(** What [querystring.parse] does with one piece. *)
Definition parse_step (obj : query_object) (x : string) : query_object :=
  let '(k, v) := qs_pair x in qs_add k (VStr v) obj.

(** [querystring.parse(qs)]; at most 1000 pieces are read. *)
Definition qs_parse (qs : string) : option query_object :=
  match qs with
  | EmptyString => Some []
  | _ =>
      let pieces := split_on "&" qs in
      if forallb piece_ok pieces then Some (foldl parse_step [] (take 1000 pieces))
      else None
  end.

(** [stringifyPrimitive]: a string as it is, a boolean by its name, a
    number by its digits; an integer of more than 53 bits is no double, and
    what an object gives depends on whether it is an array. *)
Definition stringifyPrimitive (v : jsval) : option string :=
  match v with
  | VStr s => Some s
  | VBool true => Some "true"
  | VBool false => Some "false"
  | VNum n => if (Z.abs n <=? 9007199254740992)%Z then Some (pretty n) else None
  | VUndefined | VNull => Some ""
  | VObj _ => None
  end.

(** The pieces [querystring.stringify] joins with [&]. *)
Definition qs_piece (kx : string * qvalue) : option string :=
  let ks := qs_escape (fst kx) +:+ "=" in
  let one := fun v => s ← stringifyPrimitive v; Some (ks +:+ qs_escape s) in
  match snd kx with
  | QArr vs => join "&" <$> mapM one vs
  | QVal v => one v
  end.

(** [querystring.stringify(q)], the keys being [Object.keys(q)]: in the
    order they were added when none of them is an array index. *)
Definition qs_stringify (q : query_object) : option string :=
  if existsb digits_only (map fst q) then None
  else join "&" <$> mapM qs_piece q.

(** *** [url] *)

(** [typeof v] *)
Definition typeof (v : jsval) : string :=
  match v with
  | VUndefined => "undefined"
  | VNull | VObj _ => "object"
  | VBool _ => "boolean"
  | VNum _ => "number"
  | VStr _ => "string"
  end.

Fixpoint strip_prefix (p s : string) : option string :=
  match p, s with
  | EmptyString, _ => Some s
  | String a p', String b s' => if Ascii.eqb a b then strip_prefix p' s' else None
  | String _ _, EmptyString => None
  end.

Fixpoint hyphens_apart (cs : list ascii) : bool :=
  match cs with
  | c1 :: cs' =>
      match cs' with
      | c2 :: _ => negb (Ascii.eqb c1 "-" && Ascii.eqb c2 "-") && hyphens_apart cs'
      | [] => true
      end
  | [] => true
  end.

(** A label of a host name: lower-case letters, digits and single hyphens
    between them, 63 characters at most. *)
Definition label_ok (l : string) : bool :=
  let cs := list_ascii_of_string l in
  (length cs <=? 63)%nat &&
  forallb (fun c => is_lower c || is_digit c || Ascii.eqb c "-") cs &&
  match cs with
  | c :: _ => is_lower c || is_digit c
  | [] => false
  end &&
  match last cs with
  | Some c => is_lower c || is_digit c
  | None => false
  end &&
  hyphens_apart cs.

Definition host_ok (h : string) : bool :=
  (String.length h <=? 255)%nat && forallb label_ok (split_on "." h).

(** A port: one to five digits, the first not [0], 65535 at most. *)
Definition port_ok (p : string) : bool :=
  match list_ascii_of_string p with
  | c :: cs =>
      negb (Ascii.eqb c "0") && forallb is_digit (c :: cs) &&
      (length cs <=? 4)%nat &&
      (fold_left (fun n d => 10 * n + (N_of_ascii d - 48))%N (c :: cs) 0%N <=? 65535)%N
  | [] => false
  end.

Definition path_char (c : ascii) : bool :=
  is_lower c || is_upper c || is_digit c ||
  existsb (Ascii.eqb c) (list_ascii_of_string "/._~-").

(** The text before the query that [url.parse] and [url.format] give back
    as it was: scheme, host, port and path in the form they put them. *)
Definition canonical_prefix (b : string) : bool :=
  forallb (fun c => path_char c || Ascii.eqb c ":") (list_ascii_of_string b) &&
  match
    match strip_prefix "https://" b with
    | Some r => Some r
    | None => strip_prefix "http://" b
    end
  with
  | Some r =>
      match break_at "/" r with
      | Some (hostport, _) =>
          match break_at ":" hostport with
          | Some (host, port) => host_ok host && port_ok (tail_string port)
          | None => host_ok hostport
          end
      | None => false
      end
  | None => false
  end.

(** [url.parse(u, true)] of a string. *)
Definition url_parse_string (u : string) : option urlObject :=
  let '(rest, hash) :=
    match break_at "#" u with
    | Some (rest, h) => (rest, Some h)
    | None => (u, None)
    end in
  let '(base, search) :=
    match break_at "?" rest with
    | Some (base, search) => (base, search)
    | None => (rest, "")
    end in
  if canonical_prefix base && plain_text (default "" hash) then
    query ← qs_parse (tail_string search);
    Some (mkUrlObject base (Some search) query hash)
  else None.

(** [url.parse(u, true)]: what is neither a string nor an object makes it
    throw; an object may be a URL that was parsed before, which is returned
    as it is. *)
Definition url_parse (u : jsval) : option (result urlObject) :=
  match u with
  | VStr s => Ok <$> url_parse_string s
  | VObj _ => None
  | _ => Some (Throw (TypeError ("Parameter 'url' must be a string, not " +:+ typeof u)))
  end.

(** [url.format(urlObj)]: the [search] text when there is one, the
    [query] object otherwise. *)
Definition url_format (o : urlObject) : option string :=
  query ← match url_query o with [] => Some "" | q => qs_stringify q end;
  let search :=
    match url_search o with
    | Some (String a s) => String a s
    | _ => match query with EmptyString => "" | _ => "?" +:+ query end
    end in
  let search :=
    match search with
    | EmptyString => ""
    | String a _ => if Ascii.eqb a "?" then search else "?" +:+ search
    end in
  let hash :=
    match url_hash o with
    | Some (String a h) => if Ascii.eqb a "#" then String a h else "#" +:+ String a h
    | _ => ""
    end in
  Some (url_base o +:+ search +:+ hash).

(** [delete urlObj.search] *)
Definition delete_search (o : urlObject) : urlObject :=
  mkUrlObject (url_base o) None (url_query o) (url_hash o).

(** [obj[k] = v] *)
Fixpoint query_set (k : string) (v : jsval) (q : query_object) : query_object :=
  match q with
  | [] => [(k, QVal v)]
  | (k', x) :: q' =>
      if String.eqb k' k then (k', QVal v) :: q' else (k', x) :: query_set k v q'
  end.

(** [urlObj.query.whr = realm] *)
Definition set_whr (realm : jsval) (o : urlObject) : urlObject :=
  mkUrlObject (url_base o) (url_search o) (query_set "whr" realm (url_query o))
    (url_hash o).

Definition addRealm (targetUrl realm : jsval) : option (result jsval) :=
  if truthy realm then
    match url_parse targetUrl with
    | Some (Ok urlObj) =>
        (fun text => Ok (VStr text)) <$> url_format (set_whr realm (delete_search urlObj))
    | Some (Throw e) => Some (Throw e)
    | None => None
    end
  else Some (Ok targetUrl).

Definition getPortalUrl (penv : gmap string string) (env : EnvironmentObj)
    (realm : jsval) : option (result jsval) :=
  match accessor penv env "portalUrl" with
  | Ok portalUrl => addRealm portalUrl realm
  | Throw e => Some (Throw e)
  end.


(** The text of [key=value] as [querystring.stringify] writes it. *)
Definition pair_piece (kv : string * string) : string :=
  qs_escape (fst kv) +:+ "=" +:+ qs_escape (snd kv).

(** The text of the query of [u]: what is between its first [?] and its
    fragment. *)
Definition query_text (u : string) : string :=
  let rest :=
    match break_at "#" u with
    | Some (rest, _) => rest
    | None => u
    end in
  match break_at "?" rest with
  | Some (_, search) => tail_string search
  | None => ""
  end.

(** The pieces of a query that [querystring.parse] reads: the first 1000. *)
Definition text_pieces (qs : string) : list string :=
  match qs with
  | EmptyString => []
  | _ => take 1000 (split_on "&" qs)
  end.

Definition read_pieces (u : string) : list string := text_pieces (query_text u).


(** ** The catalog *)

Definition str_obj (l : list (string * string)) : jsobj :=
  list_to_map (map (fun kv => (fst kv, VStr (snd kv))) l).

Definition AzureCloud : EnvironmentObj :=
  Environment (str_obj [
    ("name", "AzureCloud");
    ("portalUrl", "http://go.microsoft.com/fwlink/?LinkId=254433");
    ("publishingProfileUrl", "http://go.microsoft.com/fwlink/?LinkId=254432");
    ("managementEndpointUrl", "https://management.core.windows.net");
    ("resourceManagerEndpointUrl", "https://management.azure.com/");
    ("sqlManagementEndpointUrl", "https://management.core.windows.net:8443/");
    ("sqlServerHostnameSuffix", ".database.windows.net");
    ("galleryEndpointUrl", "https://gallery.azure.com/");
    ("activeDirectoryEndpointUrl", "https://login.windows.net");
    ("activeDirectoryResourceId", "https://management.core.windows.net/");
    ("commonTenantName", "common");
    ("activeDirectoryGraphResourceId", "https://graph.windows.net/");
    ("activeDirectoryGraphApiVersion", "2013-04-05")
  ]).

Definition AzureChinaCloud : EnvironmentObj :=
  Environment (str_obj [
    ("name", "AzureChinaCloud");
    ("portalUrl", "http://go.microsoft.com/fwlink/?LinkId=301902");
    ("publishingProfileUrl", "http://go.microsoft.com/fwlink/?LinkID=301774");
    ("managementEndpointUrl", "https://management.core.chinacloudapi.cn");
    ("resourceManagerEndpointUrl", "https://management.chinacloudapi.cn");
    ("sqlManagementEndpointUrl", "https://management.core.chinacloudapi.cn:8443/");
    ("sqlServerHostnameSuffix", ".database.chinacloudapi.cn");
    ("galleryEndpointUrl", "https://gallery.chinacloudapi.cn/");
    ("activeDirectoryEndpointUrl", "https://login.chinacloudapi.cn");
    ("activeDirectoryResourceId", "https://management.core.chinacloudapi.cn/");
    ("commonTenantName", "common");
    ("activeDirectoryGraphResourceId", "https://graph.windows.net/");
    ("activeDirectoryGraphApiVersion", "2013-04-05")
  ]).

Definition publicEnvironments : list EnvironmentObj := [AzureCloud; AzureChinaCloud].

(** The getter of [isPublicEnvironment], over the catalog as it stands
    when the property is read. *)
Definition isPublicEnvironmentIn (catalog : list EnvironmentObj)
    (env : EnvironmentObj) : bool :=
  contains (pluck name catalog) (name env).

Definition isPublicEnvironment (env : EnvironmentObj) : bool :=
  isPublicEnvironmentIn publicEnvironments env.

(** ** Authentication configuration and login *)

Module AuthConfig.
Record t : Type := mk {
  authorityUrl : jsval;
  tenantId : jsval;
  resourceId : jsval;
  clientId : jsval
}.
End AuthConfig.

Module TenantInfo.
Record t : Type := mk {
  tenantId : jsval;
  authContext : jsval
}.
End TenantInfo.

Module UserInfo.
Record t : Type := mk {
  name : jsval;
  tenant : jsval;
  type : jsval
}.
End UserInfo.

(** The object handed to [new Subscription(..., self)]. *)
Module SubscriptionData.
Record t : Type := mk {
  id : jsval;
  name : jsval;
  user : UserInfo.t;
  tenantId : jsval
}.
End SubscriptionData.

(** What this file requires from the rest of the CLI: the client
    identifier of [constants], the [Subscription] class, and the
    [adalAuth] and [subscriptionUtils] functions.  The last three hand
    their outcome to a callback; [..._reply] is the pair of arguments they
    call it with, once. *)
Class Externals : Type := {
  XPLAT_CLI_CLIENT_ID : jsval;
  SubscriptionObj : Type;
  Subscription : SubscriptionData.t -> EnvironmentObj -> SubscriptionObj;
  normalizeUserName : jsval -> jsval;
  acquireServicePrincipalToken_reply :
    AuthConfig.t -> jsval -> jsval -> jsval * jsval;
  getSubscriptions_reply :
    EnvironmentObj -> jsval -> jsval -> jsval -> jsval * list jsobj;
  getSubscriptionsFromTenants_reply :
    EnvironmentObj -> jsval -> list TenantInfo.t -> jsval * list jsobj
}.

(** What an [addAccount] call does, in order: the calls it makes to its
    collaborators and the calls of the caller's callback, [callback(err)]
    having no second argument. *)
Inductive event `{Externals} : Type :=
| CallGetSubscriptions (env : EnvironmentObj) (username password tenant : jsval)
| CallAcquireServicePrincipalToken (authConfig : AuthConfig.t)
    (username password : jsval)
| CallGetSubscriptionsFromTenants (env : EnvironmentObj) (username : jsval)
    (tenantInfos : list TenantInfo.t)
| Callback (err : jsval) (subscriptions : option (list SubscriptionObj)).

Definition getSubscriptions `{Externals} (env : EnvironmentObj)
    (username password tenant : jsval)
    (callback : jsval -> list jsobj -> list event) : list event :=
  CallGetSubscriptions env username password tenant ::
  (let '(err, subscriptions) := getSubscriptions_reply env username password tenant in
   callback err subscriptions).

Definition acquireServicePrincipalToken `{Externals} (authConfig : AuthConfig.t)
    (username password : jsval)
    (callback : jsval -> jsval -> list event) : list event :=
  CallAcquireServicePrincipalToken authConfig username password ::
  (let '(err, token) := acquireServicePrincipalToken_reply authConfig username password in
   callback err token).

Definition getSubscriptionsFromTenants `{Externals} (env : EnvironmentObj)
    (username : jsval) (tenantInfos : list TenantInfo.t)
    (callback : jsval -> list jsobj -> list event) : list event :=
  CallGetSubscriptionsFromTenants env username tenantInfos ::
  (let '(err, subscriptions) := getSubscriptionsFromTenants_reply env username tenantInfos in
   callback err subscriptions).

Definition getAuthConfig `{Externals} (penv : gmap string string)
    (env : EnvironmentObj) (tenantId resourceId : jsval) : result AuthConfig.t :=
  let* tenantId :=
    if negb (truthy tenantId) then accessor penv env "commonTenantName"
    else Ok tenantId in
  let* resourceId :=
    if negb (truthy resourceId) then accessor penv env "activeDirectoryResourceId"
    else Ok resourceId in
  let* authorityUrl := accessor penv env "activeDirectoryEndpointUrl" in
  Ok (AuthConfig.mk authorityUrl tenantId resourceId XPLAT_CLI_CLIENT_ID).

(** The object built for one raw record [s] inside [processSubscriptions]. *)
Definition subscriptionData (username tenant userType : jsval) (s : jsobj)
    : SubscriptionData.t :=
  SubscriptionData.mk
    (prop s "subscriptionId")
    (js_or (prop s "displayName") (prop s "subscriptionName"))
    (UserInfo.mk username tenant userType)
    (if truthy (prop s "activeDirectoryTenantId")
     then prop s "activeDirectoryTenantId" else tenant).

Definition processSubscriptions `{Externals} (self : EnvironmentObj)
    (username tenant userType : jsval)
    (callback : jsval -> option (list SubscriptionObj) -> list event)
    (err : jsval) (subscriptions : list jsobj) : list event :=
  if truthy err then callback err None
  else
    let subs := map (fun s => Subscription (subscriptionData username tenant userType s) self)
                    subscriptions in
    callback VNull (Some subs).

Definition addAccount `{Externals} (penv : gmap string string)
    (self : EnvironmentObj) (username password tenant loginAsServicePrincipal : jsval)
    (callback : jsval -> option (list SubscriptionObj) -> list event)
    : result (list event) :=
  let username := normalizeUserName username in
  let userType := VStr "user" in
  let userType :=
    if truthy loginAsServicePrincipal then VStr "servicePrincipal" else userType in
  let processSubscriptions :=
    processSubscriptions self username tenant userType callback in
  if negb (truthy loginAsServicePrincipal) then
    Ok (getSubscriptions self username password tenant processSubscriptions)
  else
    let* authConfig := getAuthConfig penv self tenant VUndefined in
    Ok (acquireServicePrincipalToken authConfig username password
          (fun err token =>
             if truthy err then callback err None
             else
               let tenantInfo := TenantInfo.mk tenant token in
               getSubscriptionsFromTenants self username [tenantInfo]
                 processSubscriptions)).

(** The caller's callback, recorded as it is called. *)
Definition recording `{Externals} (err : jsval)
    (subscriptions : option (list SubscriptionObj)) : list event :=
  [Callback err subscriptions].

(** Collaborators for the examples: they answer with the replies given
    whatever they are asked, and a [Subscription] is the pair of its two
    constructor arguments. *)
Definition stand_in (normalize : jsval -> jsval) (tokenReply : jsval * jsval)
    (subscriptionsReply : jsval * list jsobj) : Externals :=
  {| XPLAT_CLI_CLIENT_ID := VStr "04b07795-8ddb-461a-bbee-02f9e1bf7b46";
     SubscriptionObj := SubscriptionData.t * EnvironmentObj;
     Subscription := pair;
     normalizeUserName := normalize;
     acquireServicePrincipalToken_reply := fun _ _ _ => tokenReply;
     getSubscriptions_reply := fun _ _ _ _ => subscriptionsReply;
     getSubscriptionsFromTenants_reply := fun _ _ _ => subscriptionsReply |}.

(** The canonical shape of the object built from the raw record [s]: the
    fields are those of [s], the name is [displayName] or else
    [subscriptionName], the tenant is the one of [s] or else the one given. *)
Definition canonical_shape (username tenant loginAsServicePrincipal : jsval)
    (s : jsobj) (d : SubscriptionData.t) : Prop :=
  SubscriptionData.id d = prop s "subscriptionId" /\
  (truthy (prop s "displayName") = true ->
     SubscriptionData.name d = prop s "displayName") /\
  (truthy (prop s "displayName") = false ->
     SubscriptionData.name d = prop s "subscriptionName") /\
  (s !! "displayName" = None -> s !! "subscriptionName" = None ->
     SubscriptionData.name d = VUndefined) /\
  SubscriptionData.user d =
    UserInfo.mk username tenant
      (if truthy loginAsServicePrincipal then VStr "servicePrincipal"
       else VStr "user") /\
  (truthy (prop s "activeDirectoryTenantId") = true ->
     SubscriptionData.tenantId d = prop s "activeDirectoryTenantId") /\
  (truthy (prop s "activeDirectoryTenantId") = false ->
     SubscriptionData.tenantId d = tenant).

(** The user name an event carries is [username], and so is the one of
    every subscription handed to the callback, each bound to [self]. *)
Definition carries_username `{Externals} (username : jsval)
    (self : EnvironmentObj) (e : event) : Prop :=
  match e with
  | CallGetSubscriptions _ u _ _ => u = username
  | CallAcquireServicePrincipalToken _ u _ => u = username
  | CallGetSubscriptionsFromTenants _ u _ => u = username
  | Callback _ (Some subs) =>
      forall x, In x subs ->
        exists d, x = Subscription d self /\
                  UserInfo.name (SubscriptionData.user d) = username
  | Callback _ None => True
  end.

(** A stand-in for [normalizeUserName] on the one user name of the examples. *)
Definition lower_alice (u : jsval) : jsval :=
  if strict_eq u (VStr "Alice@Example.COM") then VStr "alice@example.com" else u.

(** The raw record of the specification's login example. *)
Definition raw_s1 : jsobj :=
  {[ "subscriptionId" := VStr "s1"; "displayName" := VStr "Sub1";
     "activeDirectoryTenantId" := VStr "tenant1" ]}.

(** The first entry of the registry and a bundle that carries a name and
    nothing else, as [azure account env add] starts from; used in examples. *)
Definition portalUrl_parameter : EnvironmentParameter :=
  mkEnvironmentParameter "portalUrl" "AZURE_PORTAL_URL" "the management portal URL".

Definition custom_data : jsobj := {[ "name" := VStr "custom" ]}.

(** An environment as the constructor and the setters leave it when they
    are fed a named bundle and defined values: [values] carries the name,
    and every registered parameter has a stored value, [null] at least. *)
Definition well_formed (env : EnvironmentObj) : Prop :=
  values env !! "name" = Some (name env) /\
  forall P, In P parameters ->
    exists v, values env !! pname P = Some v /\ v <> VUndefined.

(** ** The remaining methods *)

(** The getter of [authConfig]. *)
Definition authConfig `{Externals} (penv : gmap string string)
    (env : EnvironmentObj) : result AuthConfig.t :=
  getAuthConfig penv env VUndefined VUndefined.

(** What [acquireToken], [getAsmClient] and [getArmClient] require from the
    rest of the CLI: [adalAuth.acquireToken], whose [acquireToken_reply] is
    the pair of arguments it calls its callback with, once, and the two
    client factories. *)
Class ClientExternals : Type := {
  ClientObj : Type;
  createSubscriptionClient : jsval -> jsval -> ClientObj;
  createResourceSubscriptionClient : jsval -> jsval -> ClientObj;
  acquireToken_reply : AuthConfig.t -> jsval -> jsval -> jsval * jsval
}.

(** What an [acquireToken] call does, in order. *)
Inductive token_event : Type :=
| CallAcquireToken (authConfig : AuthConfig.t) (username password : jsval)
| TokenCallback (err token : jsval).

Definition adal_acquireToken `{ClientExternals} (authConfig : AuthConfig.t)
    (username password : jsval)
    (callback : jsval -> jsval -> list token_event) : list token_event :=
  CallAcquireToken authConfig username password ::
  (let '(err, token) := acquireToken_reply authConfig username password in
   callback err token).

Definition acquireToken `{Externals} `{ClientExternals}
    (penv : gmap string string) (env : EnvironmentObj)
    (username password tenantId : jsval)
    (callback : jsval -> jsval -> list token_event) : result (list token_event) :=
  let* authConfig := getAuthConfig penv env tenantId VUndefined in
  Ok (adal_acquireToken authConfig username password callback).

Definition getAsmClient `{ClientExternals} (penv : gmap string string)
    (env : EnvironmentObj) (credentials : jsval) : result ClientObj :=
  let* managementEndpointUrl := accessor penv env "managementEndpointUrl" in
  Ok (createSubscriptionClient credentials managementEndpointUrl).

Definition getArmClient `{ClientExternals} (penv : gmap string string)
    (env : EnvironmentObj) (credentials : jsval) : result ClientObj :=
  let* resourceManagerEndpointUrl :=
    accessor penv env "resourceManagerEndpointUrl" in
  Ok (createResourceSubscriptionClient credentials resourceManagerEndpointUrl).

(** Factories for the examples: a client is the pair of its arguments. *)
Definition client_stand_in (tokenReply : jsval * jsval) : ClientExternals :=
  {| ClientObj := jsval * jsval;
     createSubscriptionClient := pair;
     createResourceSubscriptionClient := pair;
     acquireToken_reply := fun _ _ _ => tokenReply |}.

(** ** The recorded test of test/recordings: [setEnvironment] *)

(** [process.env['AZURE_VM_TEST_LOCATION'] = 'West US'] *)
Definition setEnvironment (penv : gmap string string) : gmap string string :=
  <["AZURE_VM_TEST_LOCATION" := "West US"]> penv.

(** ** Notions used to state properties of the query *)

(** The text of a value that [querystring.parse] put in the query. *)
Definition value_text (v : jsval) : string :=
  match v with
  | VStr s => s
  | _ => ""
  end.

(** The pairs one property of a query object stands for. *)
Definition entry_pairs (kx : string * qvalue) : list (string * string) :=
  match snd kx with
  | QVal v => [(fst kx, value_text v)]
  | QArr vs => map (fun v => (fst kx, value_text v)) vs
  end.

(** The [key=value] pairs a query object stands for, arrays spread out. *)
Definition query_pairs (q : query_object) : list (string * string) :=
  flat_map entry_pairs q.

Definition is_string (v : jsval) : Prop := exists s, v = VStr s.

(** A value as [querystring.parse] leaves it: a string, or an array of two
    or more strings. *)
Definition parsed_value (x : qvalue) : Prop :=
  match x with
  | QVal v => is_string v
  | QArr vs => (2 <= length vs)%nat /\ Forall is_string vs
  end.

(** A query object as [querystring.parse] leaves it. *)
Definition parsed_query (q : query_object) : Prop :=
  NoDup (map fst q) /\ Forall (fun kx => parsed_value (snd kx)) q.

(** The characters [querystring.escape] can produce. *)
Definition escaped_char (c : ascii) : bool :=
  unreserved c || Ascii.eqb c "%".

(** [obj[k] = v] and its kin, for a pair already read. *)
Definition add_pair (obj : query_object) (kv : string * string) : query_object :=
  qs_add (fst kv) (VStr (snd kv)) obj.

(** The kind of an event of [addAccount]. *)
Definition is_callback `{Externals} (e : event) : bool :=
  match e with
  | Callback _ _ => true
  | _ => false
  end.

(** * Properties *)

(** ** Objects and the underscore helpers *)

Lemma nulls_lookup (properties : list string) (k : string) :
  nulls properties !! k = if decide (k ∈ properties) then Some VNull else None.
Proof.
  unfold nulls.
  assert (G : forall (acc : jsobj),
             foldl (fun acc p => <[p := VNull]> acc) acc properties !! k
             = if decide (k ∈ properties) then Some VNull else acc !! k).
  { induction properties as [|p ps IH]; intros acc; cbn [foldl].
    - rewrite decide_False; [done | apply not_elem_of_nil].
    - rewrite IH. destruct (decide (k ∈ ps)) as [Hin|Hnin].
      + rewrite decide_True; [done | by right].
      + destruct (decide (k = p)) as [->|Hne].
        * rewrite decide_True; [| by left]. by rewrite lookup_insert_eq.
        * rewrite decide_False; [by rewrite lookup_insert_ne |].
          intros [?|?]%elem_of_cons; done. }
  rewrite G. by rewrite lookup_empty.
Qed.

Lemma defaults_when_lookup (lacks : jsval -> bool) (obj source : jsobj)
    (k : string) :
  defaults_when lacks obj source !! k =
  match obj !! k, source !! k with
  | Some v, Some d => if lacks v then Some d else Some v
  | None, Some d => Some d
  | Some v, None => Some v
  | None, None => None
  end.
Proof.
  unfold defaults_when. rewrite lookup_merge.
  by destruct (obj !! k), (source !! k).
Qed.

Lemma defaults_lookup (obj source : jsobj) (k : string) :
  defaults obj source !! k =
  match obj !! k, source !! k with
  | Some v, Some d => if nullish v then Some d else Some v
  | None, Some d => Some d
  | Some v, None => Some v
  | None, None => None
  end.
Proof. apply defaults_when_lookup. Qed.

Lemma defaults_either_test (obj : jsobj) (properties : list string) :
  defaults_when nullish obj (nulls properties)
  = defaults_when is_undefined obj (nulls properties).
Proof.
  apply map_eq. intros k. rewrite !defaults_when_lookup, nulls_lookup.
  destruct (obj !! k) as [v|]; [| done].
  case_decide; [| done]. by destruct v.
Qed.

Lemma extend_lookup (dst source : jsobj) (k : string) :
  extend dst source !! k =
  match source !! k with Some v => Some v | None => dst !! k end.
Proof.
  unfold extend. rewrite lookup_union. by destruct (source !! k), (dst !! k).
Qed.

Lemma prop_insert_eq (o : jsobj) (k : string) (v : jsval) :
  prop (<[k := v]> o) k = v.
Proof. unfold prop. by rewrite lookup_insert_eq. Qed.

Lemma prop_insert_ne (o : jsobj) (k k' : string) (v : jsval) :
  k <> k' -> prop (<[k := v]> o) k' = prop o k'.
Proof. intros Hne. unfold prop. by rewrite lookup_insert_ne. Qed.

Lemma contains_spec (l : list jsval) (x : jsval) :
  contains l x = true <-> In x l.
Proof.
  unfold contains. rewrite existsb_exists. split.
  - intros (y & Hy & Heq). unfold strict_eq in Heq.
    apply bool_decide_eq_true in Heq. by subst.
  - intros Hx. exists x. split; [done |].
    unfold strict_eq. by apply bool_decide_eq_true.
Qed.

(** ** The registry *)

Ltac each_parameter H :=
  simpl in H;
  repeat (destruct H as [H | H]; [subst |]); [.. | contradiction].

Lemma parameters_names_NoDup : NoDup (pluck pname parameters).
Proof. apply (bool_decide_unpack _). by vm_compute. Qed.

Lemma parameters_variables_NoDup : NoDup (pluck environmentVariable parameters).
Proof. apply (bool_decide_unpack _). by vm_compute. Qed.

Lemma parameter_registered (P : EnvironmentParameter) :
  In P parameters -> parameter (pname P) = Some P.
Proof. intros H. each_parameter H; reflexivity. Qed.

Lemma parameter_name_registered (P : EnvironmentParameter) :
  In P parameters -> pname P ∈ pluck pname parameters.
Proof.
  intros H. apply list_elem_of_In. unfold pluck. apply in_map_iff. eauto.
Qed.

Lemma parameter_not_name (P : EnvironmentParameter) :
  In P parameters -> pname P <> "name".
Proof. intros H. each_parameter H; discriminate. Qed.

Lemma parameters_same_name (P Q : EnvironmentParameter) :
  In P parameters -> In Q parameters -> pname P = pname Q -> P = Q.
Proof.
  intros HP HQ Heq.
  apply parameter_registered in HP, HQ. rewrite Heq in HP. congruence.
Qed.

(** ** Construction *)

Lemma Environment_name (envData : jsobj) :
  name (Environment envData) = prop envData "name".
Proof. reflexivity. Qed.

Lemma Environment_values_registered (envData : jsobj) (P : EnvironmentParameter) :
  In P parameters ->
  values (Environment envData) !! pname P =
  Some (if nullish (prop envData (pname P)) then VNull
        else prop envData (pname P)).
Proof.
  intros HP. simpl. rewrite defaults_lookup, nulls_lookup.
  rewrite decide_True by by apply parameter_name_registered.
  unfold prop. destruct (envData !! pname P) as [v|]; simpl; [| done].
  by destruct (nullish v).
Qed.

Lemma Environment_values_other (envData : jsobj) (k : string) :
  k ∉ pluck pname parameters ->
  values (Environment envData) !! k = envData !! k.
Proof.
  intros Hk. simpl. rewrite defaults_lookup, nulls_lookup.
  rewrite decide_False by done. by destruct (envData !! k).
Qed.

Lemma Environment_well_formed (envData : jsobj) :
  is_Some (envData !! "name") -> well_formed (Environment envData).
Proof.
  intros [n Hn]. split.
  - rewrite Environment_values_other.
    + rewrite Environment_name. unfold prop. by rewrite Hn.
    + apply (bool_decide_unpack _). by vm_compute.
  - intros P HP. eexists. split; [by apply Environment_values_registered |].
    destruct (nullish (prop envData (pname P))) eqn:E; [done |].
    intros Heq. by rewrite Heq in E.
Qed.

Lemma set_well_formed (env : EnvironmentObj) (P : EnvironmentParameter) (v : jsval) :
  In P parameters -> v <> VUndefined ->
  well_formed env -> well_formed (set env P v).
Proof.
  intros HP Hv [Hname Hall]. split; simpl.
  - rewrite lookup_insert_ne; [done | by apply parameter_not_name].
  - intros Q HQ. destruct (decide (pname P = pname Q)) as [Heq|Hne].
    + rewrite Heq, lookup_insert_eq. eauto.
    + rewrite lookup_insert_ne by done. by apply Hall.
Qed.

(** ** Reading and writing a parameter *)

Lemma get_variable_set (penv : gmap string string) (env : EnvironmentObj)
    (P : EnvironmentParameter) (s : string) :
  penv !! environmentVariable P = Some s -> s <> "" ->
  get penv env P = Ok (VStr s).
Proof.
  intros Hs Hne. unfold get, js_or, process_env_lookup. rewrite Hs. simpl.
  destruct (String.eqb_spec s ""); [done |]. reflexivity.
Qed.

Lemma get_variable_unset (penv : gmap string string) (env : EnvironmentObj)
    (P : EnvironmentParameter) :
  penv !! environmentVariable P = None \/ penv !! environmentVariable P = Some "" ->
  get penv env P =
  if decide (prop (values env) (pname P) = VNull)
  then Throw (EndpointNotDefined (pname P))
  else Ok (prop (values env) (pname P)).
Proof.
  intros [Hs|Hs]; unfold get, js_or, process_env_lookup; rewrite Hs; simpl;
    unfold strict_eq; case_decide as Hnull.
  - by rewrite bool_decide_eq_true_2.
  - by rewrite bool_decide_eq_false_2.
  - by rewrite bool_decide_eq_true_2.
  - by rewrite bool_decide_eq_false_2.
Qed.

Lemma error_message_names_field (field : string) :
  exists before after,
    error_message (EndpointNotDefined field) = before +:+ field +:+ after.
Proof. simpl. eauto. Qed.

(** ** The claims on parameters *)

(** C1. For a registered parameter [P] and an environment built from a bundle
    with no value for [P] (the property missing, [undefined] or [null]),
    while the variable bound to [P] is unset or empty: the constructor
    yields the environment, [null] stored for [P] and shown by [toJSON],
    without failing; reading
    [P] fails with the endpoint-not-defined error, whose text names [P];
    and once ["x"] (or any value but [null]) has been set, reading [P]
    returns it. *)
Theorem C1_unset_parameter_fails_at_read_only (penv : gmap string string)
    (envData : jsobj) (P : EnvironmentParameter) :
  In P parameters ->
  nullish (prop envData (pname P)) = true ->
  penv !! environmentVariable P = None \/ penv !! environmentVariable P = Some "" ->
  let E := Environment envData in
  values E !! pname P = Some VNull /\
  toJSON E !! pname P = Some VNull /\
  get penv E P = Throw (EndpointNotDefined (pname P)) /\
  (exists before after,
     error_message (EndpointNotDefined (pname P)) = before +:+ pname P +:+ after) /\
  get penv (set E P (VStr "x")) P = Ok (VStr "x") /\
  (forall v, v <> VNull -> get penv (set E P v) P = Ok v).
Proof.
  intros HP Hnull Hvar E.
  assert (Hstored : values E !! pname P = Some VNull).
  { unfold E. rewrite Environment_values_registered by done. by rewrite Hnull. }
  assert (Hset : forall v, v <> VNull -> get penv (set E P v) P = Ok v).
  { intros v Hv. rewrite get_variable_unset by done. simpl.
    rewrite prop_insert_eq. by rewrite decide_False. }
  split; [done |].
  split; [unfold toJSON; by rewrite extend_lookup, Hstored |].
  split; [rewrite get_variable_unset by done; unfold prop; by rewrite Hstored |].
  split; [apply error_message_names_field |].
  split; [by apply Hset | done].
Qed.

Lemma C1_witness_custom_portalUrl :
  get ∅ (Environment custom_data) portalUrl_parameter
    = Throw (EndpointNotDefined "portalUrl") /\
  get ∅ (set (Environment custom_data) portalUrl_parameter (VStr "x"))
      portalUrl_parameter = Ok (VStr "x").
Proof.
  pose proof (C1_unset_parameter_fails_at_read_only ∅ custom_data
                portalUrl_parameter) as H.
  destruct H as (_ & _ & Hget & _ & Hx & _).
  - simpl. auto.
  - reflexivity.
  - left. reflexivity.
  - split; [exact Hget | exact Hx].
Defined.

(** C2, as amended. When the variable bound to [P] is set and not empty,
    reading [P] returns the variable's value whatever is stored; otherwise
    reading [P] returns the stored value [values[P.name]] when that value is
    not [null], and fails with the endpoint-not-defined error when it is. *)
Theorem C2_variable_wins_else_stored_value (penv : gmap string string)
    (env : EnvironmentObj) (P : EnvironmentParameter) :
  (forall s, penv !! environmentVariable P = Some s -> s <> "" ->
     get penv env P = Ok (VStr s)) /\
  (penv !! environmentVariable P = None \/ penv !! environmentVariable P = Some "" ->
     (prop (values env) (pname P) <> VNull ->
        get penv env P = Ok (prop (values env) (pname P))) /\
     (prop (values env) (pname P) = VNull ->
        get penv env P = Throw (EndpointNotDefined (pname P)))).
Proof.
  split.
  - intros s Hs Hne. by apply get_variable_set.
  - intros Hvar. rewrite get_variable_unset by done.
    split; intros Hstored; [by rewrite decide_False | by rewrite decide_True].
Qed.

Lemma C2_witness_variable_over_stored :
  get {[ "AZURE_PORTAL_URL" := "https://override.example/" ]} AzureCloud
      portalUrl_parameter = Ok (VStr "https://override.example/") /\
  get ∅ AzureCloud portalUrl_parameter
    = Ok (VStr "http://go.microsoft.com/fwlink/?LinkId=254433").
Proof.
  split.
  - apply (proj1 (C2_variable_wins_else_stored_value
                    {[ "AZURE_PORTAL_URL" := "https://override.example/" ]}
                    AzureCloud portalUrl_parameter)); [reflexivity | discriminate].
  - apply (proj2 (C2_variable_wins_else_stored_value ∅ AzureCloud
                    portalUrl_parameter)).
    + left. reflexivity.
    + vm_compute. discriminate.
Defined.

(** C2 as stated fails where nothing is stored: with the variable unset and
    [null] stored for [portalUrl], reading does not return the stored
    [null], it fails. *)
Lemma C2_counterexample_null_stored :
  (∅ : gmap string string) !! environmentVariable portalUrl_parameter = None /\
  prop (values (Environment custom_data)) (pname portalUrl_parameter) = VNull /\
  get ∅ (Environment custom_data) portalUrl_parameter
    = Throw (EndpointNotDefined "portalUrl") /\
  get ∅ (Environment custom_data) portalUrl_parameter
    <> Ok (prop (values (Environment custom_data)) (pname portalUrl_parameter)).
Proof.
  split; [| split; [| split]].
  - reflexivity.
  - vm_compute. reflexivity.
  - vm_compute. reflexivity.
  - vm_compute. discriminate.
Qed.

(** C9. Setting a registered parameter [P] to [v] leaves the name as it
    was, writes [v] at [values[P.name]] and changes no other property of
    [values]; every other registered parameter keeps its stored value and
    reads as before under every process environment; and whenever the
    variable bound to [P] is set and not empty, reading [P] afterwards still
    returns the variable's value. *)
Theorem C9_set_writes_one_stored_value (penv : gmap string string)
    (env : EnvironmentObj) (P : EnvironmentParameter) (v : jsval) :
  In P parameters ->
  let env' := set env P v in
  name env' = name env /\
  values env' = <[pname P := v]> (values env) /\
  values env' !! pname P = Some v /\
  (forall k, k <> pname P -> values env' !! k = values env !! k) /\
  (forall Q, In Q parameters -> Q <> P ->
     values env' !! pname Q = values env !! pname Q /\
     get penv env' Q = get penv env Q) /\
  (forall s, penv !! environmentVariable P = Some s -> s <> "" ->
     get penv env' P = Ok (VStr s) /\ get penv env P = Ok (VStr s)).
Proof.
  intros HP env'.
  assert (Hother : forall Q, In Q parameters -> Q <> P -> pname P <> pname Q).
  { intros Q HQ Hne Heq. apply Hne. symmetry. by apply parameters_same_name. }
  split; [done |]. split; [done |].
  split; [simpl; by rewrite lookup_insert_eq |].
  split; [intros k Hk; simpl; by rewrite lookup_insert_ne |].
  split.
  - intros Q HQ Hne. split.
    + simpl. rewrite lookup_insert_ne; [done | by apply Hother].
    + unfold get. simpl. rewrite prop_insert_ne; [done | by apply Hother].
  - intros s Hs Hne. split; by apply get_variable_set.
Qed.

Lemma C9_witness_set_under_override :
  get {[ "AZURE_PORTAL_URL" := "https://override.example/" ]}
      (set AzureCloud portalUrl_parameter (VStr "https://mine.example/"))
      portalUrl_parameter = Ok (VStr "https://override.example/") /\
  values (set AzureCloud portalUrl_parameter (VStr "https://mine.example/"))
    !! "portalUrl" = Some (VStr "https://mine.example/").
Proof.
  pose proof (C9_set_writes_one_stored_value
                {[ "AZURE_PORTAL_URL" := "https://override.example/" ]}
                AzureCloud portalUrl_parameter (VStr "https://mine.example/")) as H.
  destruct H as (_ & _ & Hv & _ & _ & Hread).
  - simpl. auto.
  - split; [| exact Hv].
    apply (Hread "https://override.example/"); [reflexivity | discriminate].
Defined.

(** ** Serialisation *)

Lemma toJSON_lookup (env : EnvironmentObj) (k : string) :
  toJSON env !! k =
  match values env !! k with
  | Some v => Some v
  | None => if decide (k = "name") then Some (name env) else None
  end.
Proof.
  unfold toJSON. rewrite extend_lookup. destruct (values env !! k); [done |].
  case_decide as Hk.
  - subst. by rewrite lookup_singleton_eq.
  - by rewrite lookup_singleton_ne.
Qed.

Lemma toJSON_well_formed (env : EnvironmentObj) :
  well_formed env -> toJSON env = values env.
Proof.
  intros [Hname _]. apply map_eq. intros k. rewrite toJSON_lookup.
  destruct (values env !! k) eqn:E; [done |].
  case_decide; [subst; congruence | done].
Qed.

(** C5. For an environment built from a named bundle and updated through
    its setters with defined values: [toJSON] emits the name and, for every
    registered parameter, the value stored for it ([null] included), which
    is not what reading the parameter resolves to when its variable is set;
    and the environment built from that output has the same [values]. *)
Theorem C5_toJSON_round_trip (env : EnvironmentObj) :
  well_formed env ->
  toJSON env !! "name" = Some (name env) /\
  (forall P, In P parameters -> toJSON env !! pname P = values env !! pname P) /\
  (forall P, In P parameters -> values env !! pname P = Some VNull ->
     toJSON env !! pname P = Some VNull) /\
  (forall penv P s, In P parameters ->
     penv !! environmentVariable P = Some s -> s <> "" ->
     get penv env P = Ok (VStr s) /\
     toJSON env !! pname P = values env !! pname P) /\
  values (Environment (toJSON env)) = values env.
Proof.
  intros Hwf. pose proof (toJSON_well_formed env Hwf) as HJ.
  destruct Hwf as [Hname Hall].
  split; [by rewrite HJ |].
  split; [intros P _; by rewrite HJ |].
  split; [intros P _ HP; by rewrite HJ |].
  split.
  - intros penv P s HP Hs Hne. split; [by apply get_variable_set | by rewrite HJ].
  - rewrite HJ. apply map_eq. intros k.
    destruct (decide (k ∈ pluck pname parameters)) as [Hk|Hk].
    + apply list_elem_of_In, in_map_iff in Hk as (P & <- & HP).
      rewrite Environment_values_registered by done.
      destruct (Hall P HP) as (v & Hv & Hdef). unfold prop. rewrite Hv. simpl.
      by destruct v.
    + by apply Environment_values_other.
Qed.

Lemma C5_witness_custom_round_trip :
  values (Environment (toJSON (set (Environment custom_data) portalUrl_parameter
                                   (VStr "https://mine.example/"))))
  = values (set (Environment custom_data) portalUrl_parameter
                (VStr "https://mine.example/")).
Proof.
  apply (C5_toJSON_round_trip
           (set (Environment custom_data) portalUrl_parameter
                (VStr "https://mine.example/"))).
  apply set_well_formed; [simpl; auto | discriminate |].
  apply Environment_well_formed. by eexists.
Defined.

(** ** The catalog *)

Lemma isPublicEnvironmentIn_spec (catalog : list EnvironmentObj)
    (env : EnvironmentObj) :
  isPublicEnvironmentIn catalog env = true <->
  exists c, In c catalog /\ name c = name env.
Proof.
  unfold isPublicEnvironmentIn, pluck. rewrite contains_spec, in_map_iff.
  split; intros (c & H1 & H2); by exists c.
Qed.

Lemma catalog_names :
  name AzureCloud = VStr "AzureCloud" /\
  name AzureChinaCloud = VStr "AzureChinaCloud".
Proof. split; vm_compute; reflexivity. Qed.

(** C8. [isPublicEnvironment] is true exactly when the name of the
    environment is the name of a catalog entry, that is ['AzureCloud'] or
    ['AzureChinaCloud']; it is computed from the name and the catalog as
    they are when it is read, whatever [values] holds. *)
Theorem C8_isPublicEnvironment_by_catalog_name (env : EnvironmentObj) :
  (isPublicEnvironment env = true <->
   name env = VStr "AzureCloud" \/ name env = VStr "AzureChinaCloud") /\
  (isPublicEnvironment env = true <->
   exists c, In c publicEnvironments /\ name c = name env) /\
  (forall catalog,
     isPublicEnvironmentIn catalog env = true <->
     exists c, In c catalog /\ name c = name env) /\
  (forall vals, isPublicEnvironment (mkEnvironmentObj (name env) vals)
                = isPublicEnvironment env).
Proof.
  split; [| split; [| split]].
  - unfold isPublicEnvironment. rewrite isPublicEnvironmentIn_spec. split.
    + intros (c & Hin & Hc). rewrite <- Hc.
      destruct Hin as [<- | [<- | []]]; [left | right]; apply catalog_names.
    + intros [H | H]; rewrite H; [exists AzureCloud | exists AzureChinaCloud].
      * split; [by left | apply catalog_names].
      * split; [right; by left | apply catalog_names].
  - apply isPublicEnvironmentIn_spec.
  - intros catalog. apply isPublicEnvironmentIn_spec.
  - reflexivity.
Qed.

(** A bundle may say [isPublicEnvironment] itself: the property read is
    still the one computed from the name. *)
Example isPublicEnvironment_not_stored :
  isPublicEnvironment
    (Environment {[ "name" := VStr "custom"; "isPublicEnvironment" := VBool true ]})
  = false /\
  isPublicEnvironment (set AzureChinaCloud portalUrl_parameter VNull) = true.
Proof. split; vm_compute; reflexivity. Qed.

(** ** Realm rewriting *)

Lemma append_nonempty_l (s1 s2 : string) : s1 <> "" -> s1 +:+ s2 <> "".
Proof. destruct s1; [done | discriminate]. Qed.

Lemma append_nonempty_r (s1 s2 : string) : s2 <> "" -> s1 +:+ s2 <> "".
Proof. destruct s1; [done | discriminate]. Qed.

Lemma string_app_assoc (a b c : string) : (a +:+ b) +:+ c = a +:+ (b +:+ c).
Proof.
  induction a as [|x a IH]; [done |].
  change (String x ((a +:+ b) +:+ c) = String x (a +:+ (b +:+ c))). by rewrite IH.
Qed.

Lemma string_app_empty_r (a : string) : a +:+ "" = a.
Proof.
  induction a as [|x a IH]; [done |].
  change (String x (a +:+ "") = String x a). by rewrite IH.
Qed.

Lemma chars_app (a b : string) :
  list_ascii_of_string (a +:+ b)
  = (list_ascii_of_string a ++ list_ascii_of_string b)%list.
Proof.
  induction a as [|x a IH]; [done |].
  change (x :: list_ascii_of_string (a +:+ b)
          = x :: (list_ascii_of_string a ++ list_ascii_of_string b)%list).
  by rewrite IH.
Qed.

Lemma join_cons (sep x y : string) (l : list string) :
  join sep (x :: y :: l) = x +:+ sep +:+ join sep (y :: l).
Proof. reflexivity. Qed.

Lemma join_nonempty (sep p : string) (l : list string) :
  In p l -> p <> "" -> join sep l <> "".
Proof.
  unfold join. induction l as [|x [|y l] IH]; intros Hin Hp.
  - destruct Hin.
  - destruct Hin as [-> | []]. exact Hp.
  - change (x +:+ sep +:+ String.concat sep (y :: l) <> "").
    destruct Hin as [-> | Hin]; [by apply append_nonempty_l |].
    apply append_nonempty_r, append_nonempty_r. by apply IH.
Qed.

Lemma join_app (sep : string) (l1 l2 : list string) :
  l1 <> [] -> l2 <> [] ->
  join sep (l1 ++ l2) = join sep l1 +:+ sep +:+ join sep l2.
Proof.
  intros H1 H2. induction l1 as [|x [|y l1] IH]; [done | |].
  - destruct l2 as [|z l2]; [done |]. reflexivity.
  - change ((x :: y :: l1) ++ l2)%list with (x :: y :: (l1 ++ l2))%list.
    rewrite !join_cons. change (y :: (l1 ++ l2))%list with ((y :: l1) ++ l2)%list.
    rewrite IH by done. by rewrite !string_app_assoc.
Qed.

Lemma join_concat (sep : string) (ls : list (list string)) :
  Forall (fun l => l <> []) ls ->
  join sep (map (join sep) ls) = join sep (concat ls).
Proof.
  induction ls as [|l [|l' ls] IH]; intros Hne; [done | |].
  - cbn. by rewrite app_nil_r.
  - apply Forall_cons in Hne as [Hl Hls].
    change (map (join sep) (l :: l' :: ls))
      with (join sep l :: join sep l' :: map (join sep) ls).
    rewrite join_cons.
    change (join sep l' :: map (join sep) ls) with (map (join sep) (l' :: ls)).
    rewrite IH by done. cbn [concat].
    rewrite (join_app sep l (l' ++ concat ls)); [done | done |].
    pose proof Hls as [Hl' _]%Forall_cons.
    destruct l'; [done | discriminate].
Qed.

Lemma break_at_None (c : ascii) (s : string) :
  break_at c s = None <-> Forall (fun x => x <> c) (list_ascii_of_string s).
Proof.
  induction s as [|a s IH]; cbn [break_at list_ascii_of_string].
  - split; [constructor | done].
  - destruct (Ascii.eqb_spec a c) as [-> | Hne].
    + split; [done |]. by intros [? _]%Forall_cons.
    + destruct (break_at c s) as [[before rest]|].
      * split; [done |]. intros [_ Hs]%Forall_cons. by apply IH in Hs.
      * split; [| done]. intros _. constructor; [done | by apply IH].
Qed.

Lemma break_at_app_None (c : ascii) (a b : string) :
  break_at c (a +:+ b) = None <-> break_at c a = None /\ break_at c b = None.
Proof. rewrite !break_at_None, chars_app. apply Forall_app. Qed.

Lemma break_at_app (c : ascii) (a b : string) :
  break_at c a = None ->
  break_at c (a +:+ b) =
  match break_at c b with
  | Some (x, y) => Some (a +:+ x, y)
  | None => None
  end.
Proof.
  induction a as [|x a IH].
  - intros _. change ("" +:+ b) with b. by destruct (break_at c b) as [[? ?]|].
  - change (String x a +:+ b) with (String x (a +:+ b)). cbn [break_at].
    destruct (Ascii.eqb x c); [done |].
    destruct (break_at c a) as [[? ?]|] eqn:Ha; [done |]. intros _.
    rewrite IH by done. by destruct (break_at c b) as [[? ?]|].
Qed.

Lemma break_at_head (c : ascii) (b : string) :
  break_at c (String c b) = Some ("", String c b).
Proof. cbn. by rewrite Ascii.eqb_refl. Qed.

Lemma break_at_Some (c : ascii) (s a b : string) :
  break_at c s = Some (a, b) ->
  s = a +:+ b /\ break_at c a = None /\ exists b', b = String c b'.
Proof.
  revert a b. induction s as [|x s IH]; intros a b; cbn [break_at]; [done |].
  destruct (Ascii.eqb_spec x c) as [-> | Hne].
  - intros [= <- <-]. split; [done |]. split; [done | eauto].
  - destruct (break_at c s) as [[a' b']|]; [| done]. intros [= <- <-].
    destruct (IH a' b' eq_refl) as (-> & Ha & Hb).
    split; [done |]. split; [| done].
    cbn. destruct (Ascii.eqb_spec x c); [done |]. by rewrite Ha.
Qed.

(** *** What [querystring.parse] leaves *)

Lemma qs_add_keys (k : string) (v : jsval) (q : query_object) (x : string) :
  In x (map fst (qs_add k v q)) -> x = k \/ In x (map fst q).
Proof.
  induction q as [|[k' y] q IH]; cbn [qs_add map fst].
  - intros [<- | []]. by left.
  - destruct (String.eqb_spec k' k) as [-> | Hne]; cbn [map fst].
    + intros [<- | Hin]; [by left | right; by right].
    + intros [<- | Hin]; [right; by left |].
      destruct (IH Hin) as [-> | ?]; [by left | right; by right].
Qed.

Lemma qs_add_parsed (k : string) (v : jsval) (q : query_object) :
  is_string v -> parsed_query q -> parsed_query (qs_add k v q).
Proof.
  intros Hv [Hkeys Hvals]. split.
  - induction q as [|[k' y] q IH]; cbn [qs_add map fst].
    + repeat constructor. by intros ?%elem_of_nil.
    + cbn [map fst] in Hkeys. apply NoDup_cons in Hkeys as [Hk' Hq].
      apply Forall_cons in Hvals as [_ Hvals].
      destruct (String.eqb_spec k' k) as [-> | Hne]; cbn [map fst].
      * by apply NoDup_cons.
      * apply NoDup_cons. split; [| by apply IH].
        intros Hin%list_elem_of_In%qs_add_keys. destruct Hin as [-> | Hin]; [done |].
        by apply Hk', list_elem_of_In.
  - clear Hkeys. induction q as [|[k' y] q IH]; cbn [qs_add].
    + by repeat constructor.
    + apply Forall_cons in Hvals as [Hy Hvals].
      destruct (String.eqb_spec k' k) as [-> | Hne].
      * constructor; [| done]. cbn [snd] in *. destruct y as [v0 | vs]; cbn in *.
        -- split; [lia |]. by repeat constructor.
        -- destruct Hy as [Hlen Hall]. split; [rewrite length_app; lia |].
           apply Forall_app. split; [done | by repeat constructor].
      * constructor; [done | by apply IH].
Qed.

Lemma parse_step_parsed (q : query_object) (x : string) :
  parsed_query q -> parsed_query (parse_step q x).
Proof.
  intros Hq. unfold parse_step. destruct (qs_pair x) as [k v].
  apply qs_add_parsed; [by eexists | done].
Qed.

Lemma parse_step_keys (q : query_object) (x k : string) :
  In k (map fst (parse_step q x)) -> k = fst (qs_pair x) \/ In k (map fst q).
Proof.
  unfold parse_step. destruct (qs_pair x) as [k' v]. apply qs_add_keys.
Qed.

Lemma fold_parsed (pieces : list string) (acc : query_object) :
  parsed_query acc -> parsed_query (foldl parse_step acc pieces).
Proof.
  revert acc. induction pieces as [|x pieces IH]; intros acc Hacc; cbn [foldl];
    [done |]. by apply IH, parse_step_parsed.
Qed.

Lemma fold_keys (pieces : list string) (acc : query_object) (k : string) :
  In k (map fst (foldl parse_step acc pieces)) ->
  In k (map fst acc) \/ exists x, In x pieces /\ k = fst (qs_pair x).
Proof.
  revert acc. induction pieces as [|x pieces IH]; intros acc; cbn [foldl];
    [by left |].
  intros [Hin | (y & Hy & ->)]%IH.
  - apply parse_step_keys in Hin as [-> | Hin]; [| by left].
    right. exists x. split; [by left | done].
  - right. exists y. split; [by right | done].
Qed.

Lemma qs_parse_inv (qs : string) (q : query_object) :
  qs_parse qs = Some q ->
  q = foldl parse_step [] (text_pieces qs) /\
  Forall (fun x => piece_ok x = true) (text_pieces qs).
Proof.
  unfold qs_parse, text_pieces. destruct qs as [|a qs]; [by intros [= <-] |].
  destruct (forallb piece_ok (split_on "&" (String a qs))) eqn:Hok; [| done].
  intros [= <-]. split; [done |].
  apply Forall_take, Forall_forall. intros x Hx%list_elem_of_In.
  rewrite forallb_forall in Hok. by apply Hok.
Qed.

Lemma url_parse_string_inv (u : string) (o : urlObject) :
  url_parse_string u = Some o ->
  u = url_base o +:+ default "" (url_search o) +:+ default "" (url_hash o) /\
  url_query o = foldl parse_step [] (read_pieces u) /\
  Forall (fun x => piece_ok x = true) (read_pieces u) /\
  canonical_prefix (url_base o) = true /\
  break_at "#" (url_base o) = None /\ break_at "?" (url_base o) = None /\
  (url_hash o = None \/ exists h, url_hash o = Some (String "#" h)).
Proof.
  unfold url_parse_string, read_pieces, query_text.
  destruct (break_at "#" u) as [[rest h]|] eqn:Hh.
  - apply break_at_Some in Hh as (-> & Hrest & h' & ->).
    destruct (break_at "?" rest) as [[base search]|] eqn:Hq.
    + apply break_at_Some in Hq as (-> & Hbase & _).
      apply break_at_app_None in Hrest as [Hb _].
      destruct (canonical_prefix base) eqn:Hc; [| done].
      destruct (plain_text _); [| done]. cbn [andb].
      destruct (qs_parse (tail_string search)) as [q|] eqn:Hp; [| done].
      intros [= <-]. cbn [url_base url_search url_query url_hash].
      apply qs_parse_inv in Hp as [-> Hok].
      split; [by rewrite string_app_assoc |]. repeat split; eauto.
    + destruct (canonical_prefix rest) eqn:Hc; [| done].
      destruct (plain_text _); [| done]. cbn [andb tail_string qs_parse].
      intros [= <-]. cbn [url_base url_search url_query url_hash].
      repeat split; eauto.
  - destruct (break_at "?" u) as [[base search]|] eqn:Hq.
    + apply break_at_Some in Hq as (-> & Hbase & _).
      apply break_at_app_None in Hh as [Hb _].
      destruct (canonical_prefix base) eqn:Hc; [| done].
      destruct (plain_text _); [| done]. cbn [andb].
      destruct (qs_parse (tail_string search)) as [q|] eqn:Hp; [| done].
      intros [= <-]. cbn [url_base url_search url_query url_hash].
      apply qs_parse_inv in Hp as [-> Hok].
      split; [by rewrite string_app_empty_r |]. repeat split; eauto.
    + destruct (canonical_prefix u) eqn:Hc; [| done].
      destruct (plain_text _); [| done]. cbn [andb tail_string qs_parse].
      intros [= <-]. cbn [url_base url_search url_query url_hash].
      repeat split; eauto. by rewrite !string_app_empty_r.
Qed.

Lemma url_query_parsed (u : string) (o : urlObject) :
  url_parse_string u = Some o -> parsed_query (url_query o).
Proof.
  intros (_ & -> & _)%url_parse_string_inv. apply fold_parsed. split; constructor.
Qed.

(** *** Setting [whr] *)

Lemma query_set_In (k : string) (v : jsval) (q : query_object) :
  In (k, QVal v) (query_set k v q).
Proof.
  induction q as [|[k' x] q IH]; simpl; [by left |].
  destruct (String.eqb_spec k' k) as [-> | Hne]; [by left | by right].
Qed.

Lemma query_set_nonempty (k : string) (v : jsval) (q : query_object) :
  query_set k v q <> [].
Proof.
  intros Heq. pose proof (query_set_In k v q) as Hin. by rewrite Heq in Hin.
Qed.

Lemma query_set_keys (k : string) (v : jsval) (q : query_object) :
  map fst (query_set k v q) =
  if decide (k ∈ map fst q) then map fst q else (map fst q ++ [k])%list.
Proof.
  induction q as [|[k' y] q IH]; cbn [query_set map fst].
  - rewrite decide_False; [done | apply not_elem_of_nil].
  - destruct (String.eqb_spec k' k) as [-> | Hne]; cbn [map fst].
    + rewrite decide_True; [done | by left].
    + rewrite IH. destruct (decide (k ∈ map fst q)) as [Hin | Hnin].
      * rewrite decide_True; [done | by right].
      * rewrite decide_False; [done |]. intros [?|?]%elem_of_cons; done.
Qed.

Lemma query_set_NoDup (k : string) (v : jsval) (q : query_object) :
  NoDup (map fst q) -> NoDup (map fst (query_set k v q)).
Proof.
  intros Hq. rewrite query_set_keys. case_decide as Hk; [done |].
  apply NoDup_app. split; [done |]. split.
  - intros x Hx [-> | ?%elem_of_nil]%elem_of_cons; done.
  - repeat constructor. by intros ?%elem_of_nil.
Qed.

Lemma query_set_parsed (k r : string) (q : query_object) :
  parsed_query q -> parsed_query (query_set k (VStr r) q).
Proof.
  intros [Hkeys Hvals]. split; [by apply query_set_NoDup |].
  clear Hkeys. induction q as [|[k' y] q IH]; cbn [query_set].
  - repeat constructor. by eexists.
  - apply Forall_cons in Hvals as [Hy Hvals].
    destruct (String.eqb k' k); constructor; try done; [by eexists | by apply IH].
Qed.

Lemma query_set_twice (k : string) (v w : jsval) (q : query_object) :
  query_set k w (query_set k v q) = query_set k w q.
Proof.
  induction q as [|[k' y] q IH]; cbn [query_set].
  - by rewrite String.eqb_refl.
  - destruct (String.eqb k' k) eqn:E; cbn [query_set]; rewrite E; [done |].
    by rewrite IH.
Qed.

Lemma entry_pairs_key (kx : string * qvalue) (kv : string * string) :
  In kv (entry_pairs kx) -> fst kv = fst kx.
Proof.
  destruct kx as [k [v | vs]]; unfold entry_pairs; cbn [fst snd].
  - by intros [<- | []].
  - intros (v & <- & _)%in_map_iff. done.
Qed.

Lemma query_pairs_key (q : query_object) (kv : string * string) :
  In kv (query_pairs q) -> In (fst kv) (map fst q).
Proof.
  unfold query_pairs. intros (kx & Hkx & Hin)%in_flat_map.
  apply entry_pairs_key in Hin as ->. by apply in_map.
Qed.

Lemma query_pairs_cons (kx : string * qvalue) (q : query_object) :
  query_pairs (kx :: q) = (entry_pairs kx ++ query_pairs q)%list.
Proof. reflexivity. Qed.

Lemma query_set_pairs (k t : string) (q : query_object) (kv : string * string) :
  NoDup (map fst q) ->
  In kv (query_pairs (query_set k (VStr t) q)) <->
  kv = (k, t) \/ (fst kv <> k /\ In kv (query_pairs q)).
Proof.
  induction q as [|[k' y] q IH]; cbn [query_set map fst]; intros Hq.
  - unfold query_pairs, entry_pairs. cbn. intuition congruence.
  - apply NoDup_cons in Hq as [Hk' Hq].
    destruct (String.eqb_spec k' k) as [-> | Hne];
      rewrite !query_pairs_cons, !in_app_iff.
    + change (In kv (entry_pairs (k, QVal (VStr t)))) with (In kv [(k, t)]).
      split.
      * intros [[<- | []] | Hin]; [by left |]. right. split; [| by right].
        intros <-. apply Hk', list_elem_of_In.
        by apply (query_pairs_key q kv).
      * intros [-> | [Hne [Hin | Hin]]]; [left; by left | | by right].
        by apply entry_pairs_key in Hin.
    + rewrite (IH Hq). split.
      * intros [Hin | [-> | [Hk Hin]]]; [| by left | right; split; [done | by right]].
        right. split; [| by left]. apply entry_pairs_key in Hin as ->. done.
      * intros [-> | [Hk [Hin | Hin]]]; [right; by left | by left |].
        right. right. done.
Qed.

(** *** What [querystring.stringify] writes *)

Lemma mapM_map {A B : Type} (f : A -> option B) (g : A -> B) (l : list A) :
  (forall x, In x l -> f x = Some (g x)) -> mapM f l = Some (map g l).
Proof.
  induction l as [|x l IH]; intros Hf; [done |].
  cbn [mapM map]. rewrite (Hf x) by by left. cbn.
  rewrite IH; [done |]. intros y Hy. apply Hf. by right.
Qed.

Lemma qs_piece_entry (kx : string * qvalue) :
  parsed_value (snd kx) ->
  qs_piece kx = Some (join "&" (map pair_piece (entry_pairs kx))).
Proof.
  destruct kx as [k [v | vs]]; unfold qs_piece, entry_pairs; cbn [fst snd parsed_value].
  - intros [s ->]. cbn. unfold pair_piece. cbn [fst snd].
    by rewrite string_app_assoc.
  - intros [_ Hvs].
    rewrite (mapM_map _ (fun v => qs_escape k +:+ "=" +:+ qs_escape (value_text v))).
    + cbn. rewrite map_map. reflexivity.
    + intros v Hv. rewrite Forall_forall in Hvs.
      destruct (Hvs v) as [s ->]; [by apply list_elem_of_In |]. cbn.
      by rewrite string_app_assoc.
Qed.

Lemma parsed_value_entry (kx : string * qvalue) :
  parsed_value (snd kx) -> entry_pairs kx <> [].
Proof.
  destruct kx as [k [v | vs]]; unfold entry_pairs; cbn; [done |].
  intros [Hlen _]. destruct vs; [cbn in Hlen; lia | done].
Qed.

Lemma query_pairs_concat (q : query_object) :
  query_pairs q = concat (map entry_pairs q).
Proof. unfold query_pairs. by rewrite flat_map_concat_map. Qed.

Lemma qs_stringify_pairs (q : query_object) :
  parsed_query q -> existsb digits_only (map fst q) = false ->
  qs_stringify q = Some (join "&" (map pair_piece (query_pairs q))).
Proof.
  intros [_ Hvals] Hkeys. unfold qs_stringify. rewrite Hkeys.
  rewrite (mapM_map _ (fun kx => join "&" (map pair_piece (entry_pairs kx)))).
  - cbn. f_equal.
    rewrite <- (map_map (fun kx => map pair_piece (entry_pairs kx)) (join "&")).
    rewrite join_concat.
    + f_equal. rewrite query_pairs_concat. clear.
      induction q as [|kx q IH]; [done |]. cbn [map concat].
      rewrite map_app. by f_equal.
    + apply Forall_map. eapply Forall_impl; [exact Hvals |].
      intros kx Hkx Hmap. apply (parsed_value_entry kx Hkx).
      by destruct (entry_pairs kx).
  - intros kx Hkx. apply qs_piece_entry. rewrite Forall_forall in Hvals.
    by apply Hvals, list_elem_of_In.
Qed.

Lemma qs_stringify_printed (k text : string) (realm : jsval) (q : query_object) :
  stringifyPrimitive realm = Some text ->
  qs_stringify (query_set k realm q) = qs_stringify (query_set k (VStr text) q).
Proof.
  intros Hp. unfold qs_stringify. rewrite !query_set_keys.
  assert (Hpiece : qs_piece (k, QVal realm) = qs_piece (k, QVal (VStr text))).
  { unfold qs_piece. cbn [fst snd]. rewrite Hp. reflexivity. }
  assert (HmapM : mapM qs_piece (query_set k realm q)
                  = mapM qs_piece (query_set k (VStr text) q)).
  { induction q as [|[k' y] q IH]; cbn [query_set mapM].
    - change (qs_piece (k, QVal realm)) with (qs_piece (k, QVal realm)).
      by rewrite Hpiece.
    - destruct (String.eqb_spec k' k) as [-> | Hne]; cbn [mapM].
      + by rewrite Hpiece.
      + by rewrite IH. }
  by rewrite HmapM.
Qed.

Lemma digits_only_keys (u : string) (o : urlObject) (realm : jsval) :
  url_parse_string u = Some o ->
  existsb digits_only (map fst (query_set "whr" realm (url_query o))) = false.
Proof.
  intros (_ & Hq & Hok & _)%url_parse_string_inv.
  apply not_true_is_false. intros (k & Hk & Hd)%existsb_exists.
  rewrite query_set_keys in Hk.
  assert (Hin : In k (map fst (url_query o)) \/ k = "whr").
  { case_decide; [by left |]. apply in_app_iff in Hk as [? | [<- | []]]; eauto. }
  destruct Hin as [Hin | ->]; [| done].
  rewrite Hq in Hin. apply fold_keys in Hin as [[] | (x & Hx & ->)].
  rewrite Forall_forall in Hok. specialize (Hok x (proj2 (list_elem_of_In _ _) Hx)).
  unfold piece_ok in Hok. rewrite Hd in Hok.
  by rewrite !andb_true_iff in Hok; destruct Hok as [[_ ?] _].
Qed.

(** *** [addRealm] *)

Lemma pair_piece_nonempty (kv : string * string) : pair_piece kv <> "".
Proof.
  unfold pair_piece. apply append_nonempty_r, append_nonempty_l. discriminate.
Qed.

Lemma addRealm_falsy (targetUrl realm : jsval) :
  truthy realm = false -> addRealm targetUrl realm = Some (Ok targetUrl).
Proof. intros H. unfold addRealm. by rewrite H. Qed.

Lemma addRealm_written (u : string) (o : urlObject) (realm : jsval) (qs : string) :
  truthy realm = true -> url_parse_string u = Some o ->
  qs_stringify (query_set "whr" realm (url_query o)) = Some qs -> qs <> "" ->
  addRealm (VStr u) realm =
  Some (Ok (VStr (url_base o +:+ "?" +:+ qs +:+ default "" (url_hash o)))).
Proof.
  intros Hrealm Hu Hqs Hne. unfold addRealm, url_parse. rewrite Hrealm, Hu.
  cbn [fmap option_fmap option_map].
  apply url_parse_string_inv in Hu as (_ & _ & _ & _ & _ & _ & Hhash).
  unfold url_format.
  cbn [set_whr delete_search url_base url_search url_query url_hash].
  destruct (query_set "whr" realm (url_query o)) as [|kx q] eqn:Eq;
    [by destruct (query_set_nonempty "whr" realm (url_query o)) |].
  rewrite Hqs. cbn [mbind option_bind fmap option_fmap option_map].
  destruct qs as [|a qs]; [done |].
  change ("?" +:+ String a qs) with (String "?" (String a qs)). cbv beta iota.
  rewrite Ascii.eqb_refl.
  destruct Hhash as [-> | [h ->]]; [reflexivity |].
  by rewrite Ascii.eqb_refl.
Qed.

Lemma addRealm_same_query (u u' : string) (o o' : urlObject) (realm : jsval) :
  truthy realm = true ->
  url_parse_string u = Some o -> url_parse_string u' = Some o' ->
  url_base o' = url_base o -> url_hash o' = url_hash o ->
  query_set "whr" realm (url_query o') = query_set "whr" realm (url_query o) ->
  addRealm (VStr u') realm = addRealm (VStr u) realm.
Proof.
  intros Hrealm Hu Hu' Hbase Hhash Hquery. unfold addRealm, url_parse.
  rewrite Hrealm, Hu, Hu'. cbn [fmap option_fmap option_map].
  unfold url_format.
  cbn [set_whr delete_search url_base url_search url_query url_hash].
  by rewrite Hbase, Hhash, Hquery.
Qed.

Lemma addRealm_pairs (u text : string) (o : urlObject) (realm : jsval) :
  truthy realm = true -> stringifyPrimitive realm = Some text ->
  url_parse_string u = Some o ->
  addRealm (VStr u) realm =
  Some (Ok (VStr (url_base o +:+ "?" +:+
                  join "&" (map pair_piece
                              (query_pairs (query_set "whr" (VStr text) (url_query o))))
                  +:+ default "" (url_hash o)))).
Proof.
  intros Hrealm Hp Hu. apply addRealm_written; [done | done | |].
  - rewrite (qs_stringify_printed _ text) by done.
    apply qs_stringify_pairs.
    + by apply query_set_parsed, (url_query_parsed u).
    + by apply (digits_only_keys u).
  - apply (join_nonempty _ (pair_piece ("whr", text))); [| apply pair_piece_nonempty].
    apply in_map, query_set_pairs; [| by left].
    by apply (url_query_parsed u).
Qed.









(** ** Authentication configuration *)

Lemma getAuthConfig_clientId `{Externals} (penv : gmap string string)
    (env : EnvironmentObj) (tenantId resourceId : jsval) (cfg : AuthConfig.t) :
  getAuthConfig penv env tenantId resourceId = Ok cfg ->
  AuthConfig.clientId cfg = XPLAT_CLI_CLIENT_ID.
Proof.
  unfold getAuthConfig. intros Hcfg.
  destruct (if negb (truthy tenantId) then _ else _) as [t|]; [| done].
  cbn [rbind] in Hcfg.
  destruct (if negb (truthy resourceId) then _ else _) as [r|]; [| done].
  cbn [rbind] in Hcfg.
  destruct (accessor penv env "activeDirectoryEndpointUrl") as [a|]; [| done].
  cbn [rbind] in Hcfg. by injection Hcfg as <-.
Qed.

(** C7. [getAuthConfig()] returns the record made of what
    [activeDirectoryEndpointUrl], [commonTenantName] and
    [activeDirectoryResourceId] read as, with the client identifier of
    [constants]; given a truthy tenant and a truthy resource, ['t1'] and
    ['r1'] say, it returns these two in their place; the client identifier
    is the same constant whatever the environment, the process environment
    and the arguments; and the outcome is the record alone, nothing being
    written. *)
Theorem C7_getAuthConfig_defaults_and_client `{Externals}
    (penv : gmap string string) (env : EnvironmentObj) :
  getAuthConfig penv env VUndefined VUndefined =
    (let* t := accessor penv env "commonTenantName" in
     let* r := accessor penv env "activeDirectoryResourceId" in
     let* a := accessor penv env "activeDirectoryEndpointUrl" in
     Ok (AuthConfig.mk a t r XPLAT_CLI_CLIENT_ID)) /\
  (forall a t r,
     accessor penv env "activeDirectoryEndpointUrl" = Ok a ->
     accessor penv env "commonTenantName" = Ok t ->
     accessor penv env "activeDirectoryResourceId" = Ok r ->
     getAuthConfig penv env VUndefined VUndefined =
     Ok (AuthConfig.mk a t r XPLAT_CLI_CLIENT_ID)) /\
  (forall a tenantId resourceId,
     accessor penv env "activeDirectoryEndpointUrl" = Ok a ->
     truthy tenantId = true -> truthy resourceId = true ->
     getAuthConfig penv env tenantId resourceId =
     Ok (AuthConfig.mk a tenantId resourceId XPLAT_CLI_CLIENT_ID)) /\
  (forall a,
     accessor penv env "activeDirectoryEndpointUrl" = Ok a ->
     getAuthConfig penv env (VStr "t1") (VStr "r1") =
     Ok (AuthConfig.mk a (VStr "t1") (VStr "r1") XPLAT_CLI_CLIENT_ID)) /\
  (forall penv' env' tenantId resourceId cfg,
     getAuthConfig penv' env' tenantId resourceId = Ok cfg ->
     AuthConfig.clientId cfg = XPLAT_CLI_CLIENT_ID).
Proof.
  split; [reflexivity |].
  split; [intros a t r Ha Ht Hr; unfold getAuthConfig; cbn [truthy negb];
          by rewrite Ht, Hr, Ha |].
  assert (Hgiven : forall a tenantId resourceId,
             accessor penv env "activeDirectoryEndpointUrl" = Ok a ->
             truthy tenantId = true -> truthy resourceId = true ->
             getAuthConfig penv env tenantId resourceId =
             Ok (AuthConfig.mk a tenantId resourceId XPLAT_CLI_CLIENT_ID)).
  { intros a tenantId resourceId Ha Ht Hr. unfold getAuthConfig.
    by rewrite Ht, Hr, Ha. }
  split; [exact Hgiven |].
  split; [intros a Ha; by apply Hgiven |].
  intros penv' env' tenantId resourceId cfg. apply getAuthConfig_clientId.
Qed.

Lemma C7_witness_AzureCloud :
  @getAuthConfig (stand_in lower_alice (VNull, VObj "token") (VNull, [raw_s1]))
    ∅ AzureCloud VUndefined VUndefined =
  Ok (AuthConfig.mk (VStr "https://login.windows.net") (VStr "common")
        (VStr "https://management.core.windows.net/")
        (VStr "04b07795-8ddb-461a-bbee-02f9e1bf7b46")) /\
  @getAuthConfig (stand_in lower_alice (VNull, VObj "token") (VNull, [raw_s1]))
    ∅ AzureCloud (VStr "t1") (VStr "r1") =
  Ok (AuthConfig.mk (VStr "https://login.windows.net") (VStr "t1") (VStr "r1")
        (VStr "04b07795-8ddb-461a-bbee-02f9e1bf7b46")).
Proof.
  pose proof (@C7_getAuthConfig_defaults_and_client
                (stand_in lower_alice (VNull, VObj "token") (VNull, [raw_s1]))
                ∅ AzureCloud) as (_ & Hnone & _ & Hboth & _).
  split.
  - apply Hnone; vm_compute; reflexivity.
  - apply Hboth; vm_compute; reflexivity.
Defined.

(** ** Login *)

Section Login.
Context `{Externals}.
Variables (penv : gmap string string) (self : EnvironmentObj).
Variables (username password tenant loginAsServicePrincipal : jsval).

Lemma subscriptionData_canonical (userType_of : jsval) (s : jsobj) :
  canonical_shape (normalizeUserName username) tenant userType_of s
    (subscriptionData (normalizeUserName username) tenant
       (if truthy userType_of then VStr "servicePrincipal" else VStr "user") s).
Proof.
  unfold canonical_shape, subscriptionData, js_or. cbn.
  split; [done |].
  split; [by intros -> |].
  split; [by intros -> |].
  split; [intros Hd Hs; unfold prop; by rewrite Hd, Hs |].
  split; [done |].
  split; by intros ->.
Qed.

Lemma processSubscriptions_error
    (callback : jsval -> option (list SubscriptionObj) -> list event)
    (userType err : jsval) (raws : list jsobj) :
  truthy err = true ->
  processSubscriptions self (normalizeUserName username) tenant userType
    callback err raws = callback err None.
Proof. intros He. unfold processSubscriptions. by rewrite He. Qed.

Lemma processSubscriptions_success
    (callback : jsval -> option (list SubscriptionObj) -> list event)
    (userType err : jsval) (raws : list jsobj) :
  truthy err = false ->
  processSubscriptions self (normalizeUserName username) tenant userType
    callback err raws =
  callback VNull
    (Some (map (fun s => Subscription
                  (subscriptionData (normalizeUserName username) tenant userType s)
                  self) raws)).
Proof. intros He. unfold processSubscriptions. by rewrite He. Qed.

Lemma addAccount_user_path
    (callback : jsval -> option (list SubscriptionObj) -> list event)
    (err : jsval) (raws : list jsobj) :
  truthy loginAsServicePrincipal = false ->
  getSubscriptions_reply self (normalizeUserName username) password tenant
    = (err, raws) ->
  addAccount penv self username password tenant loginAsServicePrincipal callback =
  Ok (CallGetSubscriptions self (normalizeUserName username) password tenant ::
      processSubscriptions self (normalizeUserName username) tenant (VStr "user")
        callback err raws).
Proof.
  intros Hsp Hreply. unfold addAccount, getSubscriptions.
  rewrite Hsp. cbn [negb]. by rewrite Hreply.
Qed.

Lemma addAccount_service_principal_path
    (callback : jsval -> option (list SubscriptionObj) -> list event)
    (cfg : AuthConfig.t) (tokErr token : jsval) :
  truthy loginAsServicePrincipal = true ->
  getAuthConfig penv self tenant VUndefined = Ok cfg ->
  acquireServicePrincipalToken_reply cfg (normalizeUserName username) password
    = (tokErr, token) ->
  addAccount penv self username password tenant loginAsServicePrincipal callback =
  Ok (CallAcquireServicePrincipalToken cfg (normalizeUserName username) password ::
      if truthy tokErr then callback tokErr None
      else
        CallGetSubscriptionsFromTenants self (normalizeUserName username)
          [TenantInfo.mk tenant token] ::
        (let '(err, raws) :=
           getSubscriptionsFromTenants_reply self (normalizeUserName username)
             [TenantInfo.mk tenant token] in
         processSubscriptions self (normalizeUserName username) tenant
           (VStr "servicePrincipal") callback err raws)).
Proof.
  intros Hsp Hcfg Hreply.
  unfold addAccount, acquireServicePrincipalToken, getSubscriptionsFromTenants.
  rewrite Hsp, Hcfg. cbn [negb rbind]. by rewrite Hreply.
Qed.

Lemma addAccount_service_principal_throws
    (callback : jsval -> option (list SubscriptionObj) -> list event)
    (e : jserror) :
  truthy loginAsServicePrincipal = true ->
  getAuthConfig penv self tenant VUndefined = Throw e ->
  addAccount penv self username password tenant loginAsServicePrincipal callback
    = Throw e.
Proof.
  intros Hsp Hcfg. unfold addAccount. rewrite Hsp, Hcfg. reflexivity.
Qed.

Lemma normalized_list (userType_of : jsval) (raws : list jsobj) :
  let subs :=
    map (fun s => Subscription
           (subscriptionData (normalizeUserName username) tenant
              (if truthy userType_of then VStr "servicePrincipal" else VStr "user") s)
           self) raws in
  length subs = length raws /\
  forall i s, raws !! i = Some s ->
    exists d, subs !! i = Some (Subscription d self) /\
              canonical_shape (normalizeUserName username) tenant userType_of s d.
Proof.
  intros subs. split; [apply length_map |].
  intros i s Hi. eexists. split.
  - unfold subs. change (@map jsobj SubscriptionObj) with (@fmap list _ jsobj SubscriptionObj).
    rewrite list_lookup_fmap, Hi. reflexivity.
  - apply subscriptionData_canonical.
Qed.

End Login.

(** C3. When the lookup of the path taken reports no error, the callback is
    called once, with [null] and the list obtained from the raw records one
    for one and in their order; each entry is a [Subscription] bound to the
    environment, built from the canonical shape of its record: [id] the
    record's [subscriptionId]; [name] its [displayName], else its
    [subscriptionName], [undefined] when it has neither; [user] the
    normalised user name, the tenant given and ['servicePrincipal'] or
    ['user'] as [loginAsServicePrincipal] is truthy or not; [tenantId] the
    record's [activeDirectoryTenantId] when it has one, else the tenant
    given. *)
Theorem C3_subscriptions_normalized_in_order `{Externals}
    (penv : gmap string string) (self : EnvironmentObj)
    (username password tenant loginAsServicePrincipal err : jsval)
    (raws : list jsobj) :
  truthy err = false ->
  (truthy loginAsServicePrincipal = false /\
   getSubscriptions_reply self (normalizeUserName username) password tenant
     = (err, raws)) \/
  (truthy loginAsServicePrincipal = true /\
   exists cfg tokErr token,
     getAuthConfig penv self tenant VUndefined = Ok cfg /\
     acquireServicePrincipalToken_reply cfg (normalizeUserName username) password
       = (tokErr, token) /\
     truthy tokErr = false /\
     getSubscriptionsFromTenants_reply self (normalizeUserName username)
       [TenantInfo.mk tenant token] = (err, raws)) ->
  exists calls subs,
    addAccount penv self username password tenant loginAsServicePrincipal recording
      = Ok (calls ++ [Callback VNull (Some subs)])%list /\
    (forall e, In e calls -> forall a b, e <> Callback a b) /\
    length subs = length raws /\
    forall i s, raws !! i = Some s ->
      exists d, subs !! i = Some (Subscription d self) /\
                canonical_shape (normalizeUserName username) tenant
                  loginAsServicePrincipal s d.
Proof.
  intros Herr [[Hsp Hreply] | (Hsp & cfg & tokErr & token & Hcfg & Htok & Hok & Hreply)].
  - exists [CallGetSubscriptions self (normalizeUserName username) password tenant].
    eexists. split; [| split].
    + rewrite (addAccount_user_path _ _ _ _ _ _ _ _ _ Hsp Hreply).
      rewrite processSubscriptions_success by done. reflexivity.
    + intros e [<- | []] a b. discriminate.
    + pose proof (normalized_list self username tenant loginAsServicePrincipal raws)
        as Hlist.
      rewrite Hsp in Hlist. exact Hlist.
  - exists [CallAcquireServicePrincipalToken cfg (normalizeUserName username) password;
            CallGetSubscriptionsFromTenants self (normalizeUserName username)
              [TenantInfo.mk tenant token]].
    eexists. split; [| split].
    + rewrite (addAccount_service_principal_path _ _ _ _ _ _ _ _ _ _ Hsp Hcfg Htok).
      rewrite Hok, Hreply. rewrite processSubscriptions_success by done.
      reflexivity.
    + intros e [<- | [<- | []]] a b; discriminate.
    + pose proof (normalized_list self username tenant loginAsServicePrincipal raws)
        as Hlist.
      rewrite Hsp in Hlist. exact Hlist.
Qed.

Lemma C3_witness_alice :
  exists calls subs,
    @addAccount (stand_in lower_alice (VNull, VObj "token") (VNull, [raw_s1]))
      ∅ AzureCloud (VStr "alice") (VStr "pw") (VStr "tenant1") (VBool false)
      recording
    = Ok (calls ++ [Callback VNull (Some subs)])%list /\
    subs !! 0%nat =
      Some (SubscriptionData.mk (VStr "s1") (VStr "Sub1")
              (UserInfo.mk (VStr "alice") (VStr "tenant1") (VStr "user"))
              (VStr "tenant1"), AzureCloud) /\
    length subs = 1%nat.
Proof.
  destruct (@C3_subscriptions_normalized_in_order
              (stand_in lower_alice (VNull, VObj "token") (VNull, [raw_s1]))
              ∅ AzureCloud (VStr "alice") (VStr "pw") (VStr "tenant1")
              (VBool false) VNull [raw_s1])
    as (calls & subs & Hrun & _ & Hlen & Hshape).
  - reflexivity.
  - left. split; reflexivity.
  - exists calls, subs. split; [exact Hrun |]. split; [| exact Hlen].
    destruct (Hshape 0%nat raw_s1 eq_refl)
      as (d & Hd & Hid & Hname & _ & _ & Huser & Htenant & _).
    refine (eq_trans Hd _).
    pose proof (Hname eq_refl) as Hn. pose proof (Htenant eq_refl) as Ht.
    destruct d as [i n u t].
    cbn [SubscriptionData.id SubscriptionData.name SubscriptionData.user
         SubscriptionData.tenantId] in Hid, Hn, Huser, Ht.
    subst i n u t. vm_compute. reflexivity.
Defined.

(** C4. On the service-principal path, the authentication configuration
    having been read: when token acquisition reports an error, the callback
    is called with that error and no second argument right after the
    acquisition, no subscription lookup being made; when the acquisition
    succeeds and the subscription lookup reports an error, the callback is
    called with that error and no second argument right after the lookup. *)
Theorem C4_service_principal_error_alone `{Externals}
    (penv : gmap string string) (self : EnvironmentObj)
    (username password tenant loginAsServicePrincipal : jsval)
    (callback : jsval -> option (list SubscriptionObj) -> list event)
    (cfg : AuthConfig.t) (tokErr token : jsval) :
  truthy loginAsServicePrincipal = true ->
  getAuthConfig penv self tenant VUndefined = Ok cfg ->
  acquireServicePrincipalToken_reply cfg (normalizeUserName username) password
    = (tokErr, token) ->
  (truthy tokErr = true ->
     addAccount penv self username password tenant loginAsServicePrincipal callback
     = Ok (CallAcquireServicePrincipalToken cfg (normalizeUserName username) password
           :: callback tokErr None)) /\
  (truthy tokErr = false ->
     forall err raws,
       getSubscriptionsFromTenants_reply self (normalizeUserName username)
         [TenantInfo.mk tenant token] = (err, raws) ->
       truthy err = true ->
       addAccount penv self username password tenant loginAsServicePrincipal callback
       = Ok (CallAcquireServicePrincipalToken cfg (normalizeUserName username) password
             :: CallGetSubscriptionsFromTenants self (normalizeUserName username)
                  [TenantInfo.mk tenant token]
             :: callback err None)).
Proof.
  intros Hsp Hcfg Htok.
  rewrite (addAccount_service_principal_path _ _ _ _ _ _ _ _ _ _ Hsp Hcfg Htok).
  split.
  - intros ->. reflexivity.
  - intros -> err raws -> Herr.
    by rewrite processSubscriptions_error.
Qed.

Lemma C4_witness_token_error :
  @addAccount (stand_in lower_alice (VObj "token error", VUndefined) (VNull, [raw_s1]))
    ∅ AzureCloud (VStr "sp1") (VStr "secret") (VStr "tenantX") (VBool true)
    recording
  = Ok [CallAcquireServicePrincipalToken
          (AuthConfig.mk (VStr "https://login.windows.net") (VStr "tenantX")
             (VStr "https://management.core.windows.net/")
             (VStr "04b07795-8ddb-461a-bbee-02f9e1bf7b46"))
          (VStr "sp1") (VStr "secret");
        Callback (VObj "token error") None].
Proof.
  apply (@C4_service_principal_error_alone
           (stand_in lower_alice (VObj "token error", VUndefined) (VNull, [raw_s1]))
           ∅ AzureCloud (VStr "sp1") (VStr "secret") (VStr "tenantX") (VBool true)
           recording _ (VObj "token error") VUndefined).
  - reflexivity.
  - vm_compute. reflexivity.
  - reflexivity.
  - reflexivity.
Defined.

(** C10. The user name is normalised before the paths part: the first call
    of either path ([getSubscriptions], or [acquireServicePrincipalToken]
    where it is the client identifier) is given the normalised name, so is
    every later call, and every [Subscription] handed to the callback has
    the normalised name as its [user.name]. *)
Theorem C10_username_normalized_on_both_paths `{Externals}
    (penv : gmap string string) (self : EnvironmentObj)
    (username password tenant loginAsServicePrincipal : jsval)
    (tr : list event) :
  addAccount penv self username password tenant loginAsServicePrincipal recording
    = Ok tr ->
  (truthy loginAsServicePrincipal = false ->
     exists rest,
       tr = CallGetSubscriptions self (normalizeUserName username) password tenant
            :: rest) /\
  (truthy loginAsServicePrincipal = true ->
     exists cfg rest,
       tr = CallAcquireServicePrincipalToken cfg (normalizeUserName username) password
            :: rest) /\
  (forall e, In e tr -> carries_username (normalizeUserName username) self e).
Proof.
  intros Hrun.
  assert (Hcb : forall userType err raws e,
             In e (processSubscriptions self (normalizeUserName username) tenant
                     userType recording err raws) ->
             carries_username (normalizeUserName username) self e).
  { intros userType err raws e. unfold processSubscriptions, recording.
    destruct (truthy err); intros [<- | []]; [exact I |].
    intros x (s & <- & _)%in_map_iff. eexists. split; reflexivity. }
  destruct (truthy loginAsServicePrincipal) eqn:Hsp.
  - destruct (getAuthConfig penv self tenant VUndefined) as [cfg | e] eqn:Hcfg.
    2:{ rewrite (addAccount_service_principal_throws _ _ _ _ _ _ _ e Hsp Hcfg) in Hrun.
        discriminate. }
    destruct (acquireServicePrincipalToken_reply cfg (normalizeUserName username)
                password) as [tokErr token] eqn:Htok.
    rewrite (addAccount_service_principal_path _ _ _ _ _ _ _ _ _ _ Hsp Hcfg Htok)
      in Hrun.
    injection Hrun as <-.
    split; [done |]. split; [eauto |].
    intros e [<- | He]; [reflexivity |].
    destruct (truthy tokErr).
    + destruct He as [<- | []]. exact I.
    + destruct He as [<- | He]; [reflexivity |].
      destruct (getSubscriptionsFromTenants_reply _ _ _) as [err raws].
      by eapply Hcb.
  - destruct (getSubscriptions_reply self (normalizeUserName username) password
                tenant) as [err raws] eqn:Hreply.
    rewrite (addAccount_user_path _ _ _ _ _ _ _ _ _ Hsp Hreply) in Hrun.
    injection Hrun as <-.
    split; [eauto |]. split; [done |].
    intros e [<- | He]; [reflexivity |]. by eapply Hcb.
Qed.

Lemma C10_witness_both_paths :
  (exists rest,
     @addAccount (stand_in lower_alice (VNull, VObj "token") (VNull, [raw_s1]))
       ∅ AzureCloud (VStr "Alice@Example.COM") (VStr "pw") (VStr "tenant1")
       (VBool false) recording
     = Ok (CallGetSubscriptions AzureCloud (VStr "alice@example.com") (VStr "pw")
             (VStr "tenant1") :: rest)) /\
  (forall e,
     In e [@Callback (stand_in lower_alice (VNull, VObj "token") (VNull, [raw_s1]))
             VNull
             (Some [(subscriptionData (VStr "alice@example.com") (VStr "tenant1")
                       (VStr "user") raw_s1, AzureCloud)])] ->
     carries_username (VStr "alice@example.com") AzureCloud e).
Proof.
  pose proof (@addAccount_user_path
                (stand_in lower_alice (VNull, VObj "token") (VNull, [raw_s1]))
                ∅ AzureCloud (VStr "Alice@Example.COM") (VStr "pw") (VStr "tenant1")
                (VBool false) recording VNull [raw_s1] eq_refl eq_refl) as Hrun.
  destruct (C10_username_normalized_on_both_paths _ _ _ _ _ _ _ Hrun)
    as (Huser & _ & Hall).
  split.
  - destruct (Huser eq_refl) as (rest & Heq).
    exists rest. exact (eq_trans Hrun (f_equal Ok Heq)).
  - intros e He. apply Hall. right. exact He.
Defined.

(** The user login of the specification's examples, run on the stand-in
    collaborators. *)
Example addAccount_alice :
  @addAccount (stand_in lower_alice (VNull, VObj "token") (VNull, [raw_s1]))
    ∅ AzureCloud (VStr "alice") (VStr "pw") (VStr "tenant1") (VBool false)
    recording
  = Ok [CallGetSubscriptions AzureCloud (VStr "alice") (VStr "pw") (VStr "tenant1");
        @Callback (stand_in lower_alice (VNull, VObj "token") (VNull, [raw_s1]))
          VNull
          (Some [(SubscriptionData.mk (VStr "s1") (VStr "Sub1")
                    (UserInfo.mk (VStr "alice") (VStr "tenant1") (VStr "user"))
                    (VStr "tenant1"), AzureCloud)])].
Proof.
  rewrite (@addAccount_user_path
             (stand_in lower_alice (VNull, VObj "token") (VNull, [raw_s1]))
             ∅ AzureCloud (VStr "alice") (VStr "pw") (VStr "tenant1")
             (VBool false) recording VNull [raw_s1] eq_refl eq_refl).
  reflexivity.
Qed.

(** A service principal logging in to an environment that defines no
    Active Directory endpoint: [addAccount] throws before any collaborator is
    called. *)
Example addAccount_service_principal_unresolved :
  @addAccount (stand_in lower_alice (VNull, VObj "token") (VNull, [raw_s1]))
    ∅ (Environment custom_data) (VStr "sp1") (VStr "secret") (VStr "tenantX")
    (VBool true) recording
  = Throw (EndpointNotDefined "activeDirectoryResourceId").
Proof. vm_compute. reflexivity. Qed.

(** * Further properties *)

(** ** Construction, reading and writing *)

(** X1. Whatever the bundle, the constructor leaves every registered
    parameter with a stored value that is not [undefined], keeps every value
    of the bundle that is neither [null] nor [undefined], keeps every
    property that is not a registered parameter as it was, and adds no
    property but the registered parameters. *)
Theorem Environment_fills_registry_keeps_bundle (envData : jsobj) :
  (forall P, In P parameters ->
     exists v, values (Environment envData) !! pname P = Some v /\ v <> VUndefined) /\
  (forall k v, envData !! k = Some v -> nullish v = false ->
     values (Environment envData) !! k = Some v) /\
  (forall k, k ∉ pluck pname parameters ->
     values (Environment envData) !! k = envData !! k) /\
  (forall k, is_Some (values (Environment envData) !! k) <->
             is_Some (envData !! k) \/ k ∈ pluck pname parameters).
Proof.
  split; [| split; [| split]].
  - intros P HP. eexists. split; [by apply Environment_values_registered |].
    destruct (nullish (prop envData (pname P))) eqn:E; [done |].
    intros Heq. by rewrite Heq in E.
  - intros k v Hk Hv. simpl. rewrite defaults_lookup, Hk.
    destruct (nulls _ !! k); [by rewrite Hv | done].
  - apply Environment_values_other.
  - intros k. cbn [Environment values]. rewrite defaults_lookup, nulls_lookup.
    destruct (envData !! k) as [v|] eqn:Hk;
      destruct (decide (k ∈ pluck pname parameters)) as [Hin|Hnin].
    + split; [intros _; by right |]. intros _. destruct (nullish v); by eexists.
    + split; [intros _; left; by eexists | intros _; by eexists].
    + split; [intros _; by right | intros _; by eexists].
    + split; [by intros [? ?] |]. intros [[? ?] | ?]; done.
Qed.

(** X2. Building an environment from the [values] of an environment built
    from a bundle gives that environment again: construction changes
    nothing the second time. *)
Theorem Environment_idempotent (envData : jsobj) :
  Environment (values (Environment envData)) = Environment envData.
Proof.
  unfold Environment. cbn [values]. f_equal.
  - unfold prop. rewrite defaults_lookup, nulls_lookup.
    rewrite decide_False by (apply (bool_decide_unpack _); by vm_compute).
    by destruct (envData !! "name").
  - apply map_eq. intros k. rewrite !defaults_lookup.
    destruct (envData !! k) as [v|],
             (nulls (pluck pname parameters) !! k) as [d|] eqn:Hd; try done.
    + rewrite nulls_lookup in Hd. case_decide; [| done]. injection Hd as <-.
      destruct (nullish v) eqn:Hv; [done | by rewrite Hv].
    + rewrite nulls_lookup in Hd. case_decide; [| done]. by injection Hd as <-.
Qed.

(** X3. For a registered parameter, a bundle that gives it [null], one that
    gives it [undefined] and one that does not mention it build
    environments with the same [values] for that parameter and every
    registered one: [null] is stored in each case. *)
Theorem Environment_null_undefined_missing_alike (envData : jsobj)
    (P : EnvironmentParameter) :
  In P parameters ->
  let stored d := values (Environment d) !! pname P in
  stored (<[pname P := VNull]> envData) = Some VNull /\
  stored (<[pname P := VUndefined]> envData) = Some VNull /\
  stored (delete (pname P) envData) = Some VNull /\
  (forall Q, In Q parameters -> Q <> P ->
     values (Environment (<[pname P := VUndefined]> envData)) !! pname Q
     = values (Environment (delete (pname P) envData)) !! pname Q /\
     values (Environment (<[pname P := VNull]> envData)) !! pname Q
     = values (Environment (delete (pname P) envData)) !! pname Q).
Proof.
  intros HP stored. subst stored. cbv beta.
  assert (Hstored : forall d,
             values (Environment d) !! pname P
             = Some (if nullish (prop d (pname P)) then VNull else prop d (pname P)))
    by (intros d; by apply Environment_values_registered).
  split; [rewrite Hstored; unfold prop; by rewrite lookup_insert_eq |].
  split; [rewrite Hstored; unfold prop; by rewrite lookup_insert_eq |].
  split; [rewrite Hstored; unfold prop; by rewrite lookup_delete_eq |].
  intros Q HQ Hne.
  assert (Hn : pname P <> pname Q).
  { intros Heq. apply Hne. symmetry. by apply parameters_same_name. }
  rewrite !(Environment_values_registered _ Q HQ). unfold prop.
  by rewrite !lookup_insert_ne, lookup_delete_ne.
Qed.

Lemma Environment_null_undefined_missing_alike_witness :
  values (Environment (<[ "portalUrl" := VUndefined ]> custom_data)) !! "portalUrl"
  = Some VNull /\
  values (Environment (delete "portalUrl" custom_data)) !! "portalUrl" = Some VNull.
Proof.
  destruct (Environment_null_undefined_missing_alike custom_data portalUrl_parameter)
    as (_ & Hu & Hd & _).
  - simpl. auto.
  - split; [exact Hu | exact Hd].
Defined.

(** X4. Reading a parameter fails only in one way and for one reason: the
    error is the endpoint-not-defined error of that parameter, and it is
    thrown exactly when the bound variable is unset or empty and the stored
    value is [null]; a read that succeeds never returns [null], and returns
    the variable's text or the stored value. *)
Theorem get_fails_exactly_on_null (penv : gmap string string)
    (env : EnvironmentObj) (P : EnvironmentParameter) :
  (forall e, get penv env P = Throw e <->
     e = EndpointNotDefined (pname P) /\
     (penv !! environmentVariable P = None \/
      penv !! environmentVariable P = Some "") /\
     prop (values env) (pname P) = VNull) /\
  (forall v, get penv env P = Ok v ->
     v <> VNull /\
     (v = prop (values env) (pname P) \/
      exists s, s <> "" /\ penv !! environmentVariable P = Some s /\ v = VStr s)).
Proof.
  destruct (penv !! environmentVariable P) as [s|] eqn:Hs.
  - destruct (String.eqb_spec s "") as [-> | Hne].
    + rewrite get_variable_unset by (by right). case_decide as Hnull.
      * split; [| done]. intros e. split.
        -- intros [= <-]. split; [done |]. split; [by right | done].
        -- by intros (-> & _ & _).
      * split; [intros e; split; [done | by intros (_ & _ & ?)] |].
        intros v [= <-]. split; [done | by left].
    + rewrite (get_variable_set penv env P s) by done.
      split.
      * intros e. split; [done |]. intros (_ & [? | [= ?]] & _); done.
      * intros v [= <-]. split; [done |]. right. by exists s.
  - rewrite get_variable_unset by (by left). case_decide as Hnull.
    + split; [| done]. intros e. split.
      * intros [= <-]. split; [done |]. split; [by left | done].
      * by intros (-> & _ & _).
    + split; [intros e; split; [done | by intros (_ & _ & ?)] |].
      intros v [= <-]. split; [done | by left].
Qed.

Lemma parameters_same_variable (P Q : EnvironmentParameter) :
  In P parameters -> In Q parameters ->
  environmentVariable P = environmentVariable Q -> P = Q.
Proof.
  assert (G : forall l : list EnvironmentParameter,
             NoDup (pluck environmentVariable l) -> In P l -> In Q l ->
             environmentVariable P = environmentVariable Q -> P = Q).
  { induction l as [|x l IH]; [intros _ [] |].
    intros [Hx Hl]%NoDup_cons [-> | HP] [-> | HQ] Heq; try done.
    - exfalso. apply Hx. rewrite Heq. apply list_elem_of_In. by apply in_map.
    - exfalso. apply Hx. rewrite <- Heq. apply list_elem_of_In. by apply in_map.
    - by apply IH. }
  apply G, parameters_variables_NoDup.
Qed.

Lemma get_same_variable_same_stored (penv penv' : gmap string string)
    (env env' : EnvironmentObj) (P : EnvironmentParameter) :
  penv !! environmentVariable P = penv' !! environmentVariable P ->
  values env !! pname P = values env' !! pname P ->
  get penv env P = get penv' env' P.
Proof.
  intros Hv Hs. unfold get, process_env_lookup, prop. by rewrite Hv, Hs.
Qed.

(** X5. An override is local to its parameter: setting or removing the
    variable bound to one registered parameter changes the reading of no
    other registered parameter; set to a text that is not empty, it is what
    the parameter reads as; removed, the parameter reads as it does with no
    variable at all. *)
Theorem variable_override_is_local (penv : gmap string string)
    (env : EnvironmentObj) (P Q : EnvironmentParameter) (s : string) :
  In P parameters -> In Q parameters -> Q <> P ->
  get (<[environmentVariable P := s]> penv) env Q = get penv env Q /\
  get (delete (environmentVariable P) penv) env Q = get penv env Q /\
  (s <> "" -> get (<[environmentVariable P := s]> penv) env P = Ok (VStr s)) /\
  get (delete (environmentVariable P) penv) env P = get ∅ env P.
Proof.
  intros HP HQ Hne.
  assert (Hvar : environmentVariable P <> environmentVariable Q).
  { intros Heq. apply Hne. symmetry. by apply parameters_same_variable. }
  split; [apply get_same_variable_same_stored; [by rewrite lookup_insert_ne | done] |].
  split; [apply get_same_variable_same_stored; [by rewrite lookup_delete_ne | done] |].
  split.
  - intros Hs. apply get_variable_set; [by rewrite lookup_insert_eq | done].
  - apply get_same_variable_same_stored; [| done].
    by rewrite lookup_delete_eq, lookup_empty.
Qed.

Lemma variable_override_is_local_witness :
  get (<[ "AZURE_PORTAL_URL" := "https://override.example/" ]> ∅) AzureCloud
      (mkEnvironmentParameter "commonTenantName"
         "AZURE_ACTIVEDIRECTORY_COMMON_TENANT_NAME"
         "the Active Directory common tenant name")
  = get ∅ AzureCloud
      (mkEnvironmentParameter "commonTenantName"
         "AZURE_ACTIVEDIRECTORY_COMMON_TENANT_NAME"
         "the Active Directory common tenant name").
Proof.
  apply (variable_override_is_local ∅ AzureCloud portalUrl_parameter
           (mkEnvironmentParameter "commonTenantName"
              "AZURE_ACTIVEDIRECTORY_COMMON_TENANT_NAME"
              "the Active Directory common tenant name")
           "https://override.example/").
  - simpl. auto.
  - simpl. auto 20.
  - discriminate.
Defined.

Lemma accessor_same_variables (penv penv' : gmap string string)
    (env : EnvironmentObj) (n : string) :
  (forall P, In P parameters ->
     penv !! environmentVariable P = penv' !! environmentVariable P) ->
  accessor penv env n = accessor penv' env n.
Proof.
  intros Hsame. unfold accessor.
  destruct (parameter n) as [P|] eqn:HP; [| done].
  apply get_same_variable_same_stored; [| done].
  apply Hsame. unfold parameter in HP. by apply find_some in HP as [HP _].
Qed.

(** X6. The variable that the recorded test sets, [AZURE_VM_TEST_LOCATION],
    is bound to no registered parameter: after [setEnvironment] every
    parameter of every environment reads as before, and so the portal URL
    and the authentication configuration are what they were. *)
Theorem setEnvironment_leaves_endpoints `{Externals}
    (penv : gmap string string) (env : EnvironmentObj) :
  (forall n, accessor (setEnvironment penv) env n = accessor penv env n) /\
  (forall realm, getPortalUrl (setEnvironment penv) env realm
                 = getPortalUrl penv env realm) /\
  (forall tenantId resourceId,
     getAuthConfig (setEnvironment penv) env tenantId resourceId
     = getAuthConfig penv env tenantId resourceId).
Proof.
  assert (Hacc : forall n, accessor (setEnvironment penv) env n = accessor penv env n).
  { intros n. apply accessor_same_variables. intros P HP.
    unfold setEnvironment. rewrite lookup_insert_ne; [done |].
    each_parameter HP; discriminate. }
  split; [exact Hacc |]. split.
  - intros realm. unfold getPortalUrl. by rewrite Hacc.
  - intros tenantId resourceId. unfold getAuthConfig. by rewrite !Hacc.
Qed.

(** X7. Writes compose as writes to a map do: a second write to the same
    parameter replaces the first, writes to parameters of different names
    can be made in either order, and writing the value already stored
    changes nothing. *)
Theorem set_composes (env : EnvironmentObj) (P Q : EnvironmentParameter)
    (v w : jsval) :
  set (set env P v) P w = set env P w /\
  (pname P <> pname Q -> set (set env P v) Q w = set (set env Q w) P v) /\
  (values env !! pname P = Some v -> set env P v = env).
Proof.
  unfold set. cbn [name values]. split; [| split].
  - by rewrite insert_insert_eq.
  - intros Hne. f_equal. by apply insert_insert_ne.
  - intros Hv. destruct env as [n vals]. cbn [name values] in *.
    f_equal. by apply insert_id.
Qed.

(** X8. Only [null] marks a parameter as not defined.  With the bound
    variable unset or empty: after [null] is set the read fails, which
    takes back an earlier definition; after [undefined], the empty string or
    [false] is set the read returns that value. *)
Theorem only_null_marks_not_defined (penv : gmap string string)
    (env : EnvironmentObj) (P : EnvironmentParameter) :
  penv !! environmentVariable P = None \/ penv !! environmentVariable P = Some "" ->
  get penv (set env P VNull) P = Throw (EndpointNotDefined (pname P)) /\
  get penv (set env P VUndefined) P = Ok VUndefined /\
  get penv (set env P (VStr "")) P = Ok (VStr "") /\
  get penv (set env P (VBool false)) P = Ok (VBool false).
Proof.
  intros Hvar. rewrite !get_variable_unset by done. cbn [set values].
  rewrite !prop_insert_eq. done.
Qed.

Lemma only_null_marks_not_defined_witness :
  get ∅ (set AzureCloud portalUrl_parameter VNull) portalUrl_parameter
  = Throw (EndpointNotDefined "portalUrl") /\
  get ∅ (set AzureCloud portalUrl_parameter VUndefined) portalUrl_parameter
  = Ok VUndefined.
Proof.
  destruct (only_null_marks_not_defined ∅ AzureCloud portalUrl_parameter)
    as (Hnull & Hundef & _).
  - left. reflexivity.
  - split; [exact Hnull | exact Hundef].
Defined.

(** X9. What saving and loading does to any environment, well formed or
    not: a registered parameter comes back with its stored value, [null] if
    that was [undefined] or missing; any other property of [values] but
    [name] comes back as it was; and the name that comes back is the [name]
    property of [values] when it has one, the name of the environment
    otherwise. *)
Theorem toJSON_reload_in_general (env : EnvironmentObj) :
  (forall P, In P parameters ->
     values (Environment (toJSON env)) !! pname P =
     Some (if nullish (prop (values env) (pname P)) then VNull
           else prop (values env) (pname P))) /\
  (forall k, k ∉ pluck pname parameters -> k <> "name" ->
     values (Environment (toJSON env)) !! k = values env !! k) /\
  (forall n, values env !! "name" = Some n ->
     name (Environment (toJSON env)) = n /\
     values (Environment (toJSON env)) !! "name" = Some n) /\
  (values env !! "name" = None ->
     name (Environment (toJSON env)) = name env /\
     values (Environment (toJSON env)) !! "name" = Some (name env)).
Proof.
  assert (Hname : "name" ∉ pluck pname parameters)
    by (apply (bool_decide_unpack _); by vm_compute).
  split; [| split; [| split]].
  - intros P HP. rewrite Environment_values_registered by done.
    unfold prop. rewrite toJSON_lookup.
    destruct (values env !! pname P); [done |].
    rewrite decide_False; [done | by apply parameter_not_name].
  - intros k Hk Hne. rewrite Environment_values_other by done.
    rewrite toJSON_lookup. destruct (values env !! k); [done |].
    by rewrite decide_False.
  - intros n Hn. rewrite Environment_name, Environment_values_other by done.
    unfold prop. by rewrite toJSON_lookup, Hn.
  - intros Hn. rewrite Environment_name, Environment_values_other by done.
    unfold prop. by rewrite toJSON_lookup, Hn.
Qed.

(** ** The catalog *)

Lemma get_Throw_inv (penv : gmap string string) (env : EnvironmentObj)
    (P : EnvironmentParameter) (e : jserror) :
  get penv env P = Throw e -> e = EndpointNotDefined (pname P).
Proof.
  unfold get. destruct (strict_eq _ VNull); [by intros [= <-] | done].
Qed.

Lemma get_Ok_not_null (penv : gmap string string) (env : EnvironmentObj)
    (P : EnvironmentParameter) (v : jsval) :
  get penv env P = Ok v -> v <> VNull.
Proof.
  unfold get, strict_eq. case_bool_decide as Hnull; [done |]. by intros [= <-].
Qed.

Lemma accessor_Throw_inv (penv : gmap string string) (env : EnvironmentObj)
    (n : string) (e : jserror) :
  accessor penv env n = Throw e -> e = EndpointNotDefined n.
Proof.
  unfold accessor. destruct (parameter n) as [P|] eqn:HP; [| done].
  intros He%get_Throw_inv. unfold parameter in HP.
  apply find_some in HP as [_ Hn]. apply String.eqb_eq in Hn. by rewrite <- Hn.
Qed.

Lemma accessor_Ok_not_null (penv : gmap string string) (env : EnvironmentObj)
    (n : string) (v : jsval) :
  parameter n <> None -> accessor penv env n = Ok v -> v <> VNull.
Proof.
  unfold accessor. destruct (parameter n) as [P|]; [| done].
  intros _. apply get_Ok_not_null.
Qed.

Lemma catalog_stored_strings :
  forallb (fun env =>
             forallb (fun P =>
                        match values env !! pname P with
                        | Some (VStr s) => negb (String.eqb s "")
                        | _ => false
                        end) parameters) publicEnvironments = true.
Proof. vm_compute. reflexivity. Qed.

Lemma catalog_stored (env : EnvironmentObj) (P : EnvironmentParameter) :
  In env publicEnvironments -> In P parameters ->
  exists s, s <> "" /\ values env !! pname P = Some (VStr s).
Proof.
  intros Henv HP. pose proof catalog_stored_strings as Hall.
  rewrite forallb_forall in Hall. specialize (Hall env Henv).
  rewrite forallb_forall in Hall. specialize (Hall P HP).
  destruct (values env !! pname P) as [[| | | |s|]|]; try done.
  exists s. split; [| done]. intros ->. done.
Qed.

Lemma catalog_get (penv : gmap string string) (env : EnvironmentObj)
    (P : EnvironmentParameter) :
  In env publicEnvironments -> In P parameters ->
  exists s, s <> "" /\ get penv env P = Ok (VStr s).
Proof.
  intros Henv HP. destruct (catalog_stored env P Henv HP) as (s & Hs & Hstored).
  destruct (penv !! environmentVariable P) as [o|] eqn:Ho.
  - destruct (String.eqb_spec o "") as [-> | Hne].
    + exists s. split; [done |]. rewrite get_variable_unset by (by right).
      unfold prop. rewrite Hstored. cbn. by rewrite decide_False.
    + exists o. split; [done |]. by apply get_variable_set.
  - exists s. split; [done |]. rewrite get_variable_unset by (by left).
    unfold prop. rewrite Hstored. cbn. by rewrite decide_False.
Qed.

Lemma catalog_accessor (penv : gmap string string) (env : EnvironmentObj)
    (P : EnvironmentParameter) :
  In env publicEnvironments -> In P parameters ->
  exists s, s <> "" /\ accessor penv env (pname P) = Ok (VStr s).
Proof.
  intros Henv HP. unfold accessor. rewrite parameter_registered by done.
  by apply catalog_get.
Qed.

(** X10. The catalog is fully defined: every entry stores, for every
    registered parameter, a string that is not empty, so that every
    parameter of a catalog entry can be read under every process
    environment, and reads as a string that is not empty; the entries have
    different names and are well formed. *)
Theorem catalog_fully_defined :
  (forall env P, In env publicEnvironments -> In P parameters ->
     (exists s, s <> "" /\ values env !! pname P = Some (VStr s)) /\
     (forall penv, exists s, s <> "" /\ get penv env P = Ok (VStr s))) /\
  NoDup (pluck name publicEnvironments) /\
  (forall env, In env publicEnvironments -> well_formed env).
Proof.
  split; [| split].
  - intros env P Henv HP. split; [by apply catalog_stored |].
    intros penv. by apply catalog_get.
  - destruct catalog_names as [Ha Hc]. unfold pluck, publicEnvironments.
    cbn [map]. rewrite Ha, Hc. apply (bool_decide_unpack _). by vm_compute.
  - intros env Henv. split.
    + destruct Henv as [<- | [<- | []]]; vm_compute; reflexivity.
    + intros P HP. destruct (catalog_stored env P Henv HP) as (s & _ & Hs).
      exists (VStr s). by split.
Qed.

(** ** Authentication configuration, again *)

Lemma getAuthConfig_Ok_iff `{Externals} (penv : gmap string string)
    (env : EnvironmentObj) (tenantId resourceId : jsval) (cfg : AuthConfig.t) :
  getAuthConfig penv env tenantId resourceId = Ok cfg <->
  (if truthy tenantId then AuthConfig.tenantId cfg = tenantId
   else accessor penv env "commonTenantName" = Ok (AuthConfig.tenantId cfg)) /\
  (if truthy resourceId then AuthConfig.resourceId cfg = resourceId
   else accessor penv env "activeDirectoryResourceId"
        = Ok (AuthConfig.resourceId cfg)) /\
  accessor penv env "activeDirectoryEndpointUrl" = Ok (AuthConfig.authorityUrl cfg) /\
  AuthConfig.clientId cfg = XPLAT_CLI_CLIENT_ID.
Proof.
  unfold getAuthConfig. destruct cfg as [a t r c]. cbn [AuthConfig.tenantId
    AuthConfig.resourceId AuthConfig.authorityUrl AuthConfig.clientId].
  destruct (truthy tenantId), (truthy resourceId); cbn [negb rbind].
  - destruct (accessor penv env "activeDirectoryEndpointUrl") as [a'|e];
      cbn [rbind]; split.
    + by intros [= <- <- <- <-].
    + by intros (-> & -> & [= ->] & ->).
    + done.
    + by intros (_ & _ & ? & _).
  - destruct (accessor penv env "activeDirectoryResourceId") as [r'|e];
      cbn [rbind]; [| split; [done | by intros (_ & ? & _)]].
    destruct (accessor penv env "activeDirectoryEndpointUrl") as [a'|e];
      cbn [rbind]; split.
    + by intros [= <- <- <- <-].
    + by intros (-> & [= ->] & [= ->] & ->).
    + done.
    + by intros (_ & _ & ? & _).
  - destruct (accessor penv env "commonTenantName") as [t'|e];
      cbn [rbind]; [| split; [done | by intros (? & _)]].
    destruct (accessor penv env "activeDirectoryEndpointUrl") as [a'|e];
      cbn [rbind]; split.
    + by intros [= <- <- <- <-].
    + by intros ([= ->] & -> & [= ->] & ->).
    + done.
    + by intros (_ & _ & ? & _).
  - destruct (accessor penv env "commonTenantName") as [t'|e];
      cbn [rbind]; [| split; [done | by intros (? & _)]].
    destruct (accessor penv env "activeDirectoryResourceId") as [r'|e];
      cbn [rbind]; [| split; [done | by intros (_ & ? & _)]].
    destruct (accessor penv env "activeDirectoryEndpointUrl") as [a'|e];
      cbn [rbind]; split.
    + by intros [= <- <- <- <-].
    + by intros ([= ->] & [= ->] & [= ->] & ->).
    + done.
    + by intros (_ & _ & ? & _).
Qed.

Lemma getAuthConfig_Throw_inv `{Externals} (penv : gmap string string)
    (env : EnvironmentObj) (tenantId resourceId : jsval) (e : jserror) :
  getAuthConfig penv env tenantId resourceId = Throw e ->
  (truthy tenantId = false /\ e = EndpointNotDefined "commonTenantName") \/
  (truthy resourceId = false /\ e = EndpointNotDefined "activeDirectoryResourceId") \/
  e = EndpointNotDefined "activeDirectoryEndpointUrl".
Proof.
  unfold getAuthConfig.
  destruct (truthy tenantId) eqn:Ht; cbn [negb rbind].
  - destruct (truthy resourceId) eqn:Hr; cbn [negb rbind].
    + destruct (accessor penv env "activeDirectoryEndpointUrl") eqn:Ha;
        cbn [rbind]; [done |]. intros [= <-]. right. right.
      by eapply accessor_Throw_inv.
    + destruct (accessor penv env "activeDirectoryResourceId") eqn:Hres;
        cbn [rbind].
      * destruct (accessor penv env "activeDirectoryEndpointUrl") eqn:Ha;
          cbn [rbind]; [done |]. intros [= <-]. right. right.
        by eapply accessor_Throw_inv.
      * intros [= <-]. right. left. split; [done |]. by eapply accessor_Throw_inv.
  - destruct (accessor penv env "commonTenantName") eqn:Hc; cbn [rbind].
    2:{ intros [= <-]. left. split; [done |]. by eapply accessor_Throw_inv. }
    destruct (truthy resourceId) eqn:Hr; cbn [negb rbind].
    + destruct (accessor penv env "activeDirectoryEndpointUrl") eqn:Ha;
        cbn [rbind]; [done |]. intros [= <-]. right. right.
      by eapply accessor_Throw_inv.
    + destruct (accessor penv env "activeDirectoryResourceId") eqn:Hres;
        cbn [rbind].
      * destruct (accessor penv env "activeDirectoryEndpointUrl") eqn:Ha;
          cbn [rbind]; [done |]. intros [= <-]. right. right.
        by eapply accessor_Throw_inv.
      * intros [= <-]. right. left. split; [done |]. by eapply accessor_Throw_inv.
Qed.

Lemma getAuthConfig_falsy_tenant `{Externals} (penv : gmap string string)
    (env : EnvironmentObj) (tenantId resourceId : jsval) :
  truthy tenantId = false ->
  getAuthConfig penv env tenantId resourceId
  = getAuthConfig penv env VUndefined resourceId.
Proof. intros Ht. unfold getAuthConfig. by rewrite Ht. Qed.

Lemma getAuthConfig_falsy_resource `{Externals} (penv : gmap string string)
    (env : EnvironmentObj) (tenantId resourceId : jsval) :
  truthy resourceId = false ->
  getAuthConfig penv env tenantId resourceId
  = getAuthConfig penv env tenantId VUndefined.
Proof. intros Hr. unfold getAuthConfig. by rewrite Hr. Qed.

(** X11. An argument of [getAuthConfig] that is falsy (the empty string,
    [null], [false], zero) counts as not given: the configuration is the
    one returned without it, the common tenant and the resource of the
    environment standing in. *)
Theorem getAuthConfig_falsy_argument_not_given `{Externals}
    (penv : gmap string string) (env : EnvironmentObj)
    (tenantId resourceId : jsval) :
  truthy tenantId = false -> truthy resourceId = false ->
  getAuthConfig penv env tenantId resourceId
  = getAuthConfig penv env VUndefined VUndefined /\
  (forall r, getAuthConfig penv env tenantId r = getAuthConfig penv env VUndefined r) /\
  (forall t, getAuthConfig penv env t resourceId = getAuthConfig penv env t VUndefined).
Proof.
  intros Ht Hr. split; [| split].
  - by rewrite getAuthConfig_falsy_tenant, getAuthConfig_falsy_resource.
  - intros r. by apply getAuthConfig_falsy_tenant.
  - intros t. by apply getAuthConfig_falsy_resource.
Qed.

Lemma getAuthConfig_falsy_argument_not_given_witness :
  @getAuthConfig (stand_in lower_alice (VNull, VObj "token") (VNull, [raw_s1]))
    ∅ AzureCloud (VStr "") VNull
  = @getAuthConfig (stand_in lower_alice (VNull, VObj "token") (VNull, [raw_s1]))
      ∅ AzureCloud VUndefined VUndefined.
Proof.
  apply (@getAuthConfig_falsy_argument_not_given
           (stand_in lower_alice (VNull, VObj "token") (VNull, [raw_s1]))
           ∅ AzureCloud (VStr "") VNull); reflexivity.
Defined.

(** X12. [getAuthConfig] returns a configuration exactly when the
    properties it reads can be read: [activeDirectoryEndpointUrl] always,
    [commonTenantName] when no truthy tenant is given,
    [activeDirectoryResourceId] when no truthy resource is given.  When it
    fails the error is the endpoint-not-defined error of one of these
    three, and [commonTenantName] is the first to be read. *)
Theorem getAuthConfig_succeeds_exactly_when `{Externals}
    (penv : gmap string string) (env : EnvironmentObj)
    (tenantId resourceId : jsval) :
  ((exists cfg, getAuthConfig penv env tenantId resourceId = Ok cfg) <->
   (truthy tenantId = true \/
    exists v, accessor penv env "commonTenantName" = Ok v) /\
   (truthy resourceId = true \/
    exists v, accessor penv env "activeDirectoryResourceId" = Ok v) /\
   (exists v, accessor penv env "activeDirectoryEndpointUrl" = Ok v)) /\
  (forall e, getAuthConfig penv env tenantId resourceId = Throw e ->
     (truthy tenantId = false /\ e = EndpointNotDefined "commonTenantName") \/
     (truthy resourceId = false /\
      e = EndpointNotDefined "activeDirectoryResourceId") \/
     e = EndpointNotDefined "activeDirectoryEndpointUrl") /\
  (forall e, truthy tenantId = false ->
     accessor penv env "commonTenantName" = Throw e ->
     getAuthConfig penv env tenantId resourceId = Throw e).
Proof.
  split; [| split].
  - split.
    + intros [cfg Hcfg]. apply getAuthConfig_Ok_iff in Hcfg
        as (Ht & Hr & Ha & _).
      split; [destruct (truthy tenantId); eauto |].
      split; [destruct (truthy resourceId); eauto | eauto].
    + intros (Ht & Hr & [a Ha]).
      assert (exists t, if truthy tenantId then t = tenantId
                        else accessor penv env "commonTenantName" = Ok t)
        as [t Ht'].
      { destruct (truthy tenantId); [eauto |]. by destruct Ht as [? | [v ?]]; eauto. }
      assert (exists r, if truthy resourceId then r = resourceId
                        else accessor penv env "activeDirectoryResourceId" = Ok r)
        as [r Hr'].
      { destruct (truthy resourceId); [eauto |]. by destruct Hr as [? | [v ?]]; eauto. }
      exists (AuthConfig.mk a t r XPLAT_CLI_CLIENT_ID).
      by apply getAuthConfig_Ok_iff.
  - apply getAuthConfig_Throw_inv.
  - intros e Ht He. unfold getAuthConfig. by rewrite Ht, He.
Qed.

(** X13. No field of a configuration that [getAuthConfig] returns is
    [null]: the authority, the tenant and the resource are values that were
    given or could be read, and the client identifier is the constant. *)
Theorem getAuthConfig_fields_not_null `{Externals}
    (penv : gmap string string) (env : EnvironmentObj)
    (tenantId resourceId : jsval) (cfg : AuthConfig.t) :
  getAuthConfig penv env tenantId resourceId = Ok cfg ->
  AuthConfig.authorityUrl cfg <> VNull /\
  AuthConfig.tenantId cfg <> VNull /\
  AuthConfig.resourceId cfg <> VNull /\
  AuthConfig.clientId cfg = XPLAT_CLI_CLIENT_ID.
Proof.
  intros (Ht & Hr & Ha & Hc)%getAuthConfig_Ok_iff.
  split; [by eapply accessor_Ok_not_null; [| exact Ha] |].
  split; [| split; [| done]].
  - destruct (truthy tenantId) eqn:E.
    + rewrite Ht. by intros ->.
    + by eapply accessor_Ok_not_null; [| exact Ht].
  - destruct (truthy resourceId) eqn:E.
    + rewrite Hr. by intros ->.
    + by eapply accessor_Ok_not_null; [| exact Hr].
Qed.

Lemma getAuthConfig_fields_not_null_witness :
  exists cfg,
    @getAuthConfig (stand_in lower_alice (VNull, VObj "token") (VNull, [raw_s1]))
      ∅ AzureCloud (VStr "t1") VUndefined = Ok cfg /\
    AuthConfig.resourceId cfg <> VNull.
Proof.
  eexists. split; [vm_compute; reflexivity |].
  eapply (@getAuthConfig_fields_not_null
            (stand_in lower_alice (VNull, VObj "token") (VNull, [raw_s1]))
            ∅ AzureCloud (VStr "t1") VUndefined).
  vm_compute. reflexivity.
Defined.

(** ** Login, again *)

Lemma addAccount_cases `{Externals} (penv : gmap string string)
    (self : EnvironmentObj)
    (username password tenant loginAsServicePrincipal : jsval)
    (callback : jsval -> option (list SubscriptionObj) -> list event) :
  (truthy loginAsServicePrincipal = false /\
   exists err raws,
     getSubscriptions_reply self (normalizeUserName username) password tenant
       = (err, raws) /\
     addAccount penv self username password tenant loginAsServicePrincipal callback
     = Ok (CallGetSubscriptions self (normalizeUserName username) password tenant ::
           processSubscriptions self (normalizeUserName username) tenant
             (VStr "user") callback err raws)) \/
  (truthy loginAsServicePrincipal = true /\
   exists e,
     getAuthConfig penv self tenant VUndefined = Throw e /\
     addAccount penv self username password tenant loginAsServicePrincipal callback
     = Throw e) \/
  (truthy loginAsServicePrincipal = true /\
   exists cfg tokErr token,
     getAuthConfig penv self tenant VUndefined = Ok cfg /\
     acquireServicePrincipalToken_reply cfg (normalizeUserName username) password
       = (tokErr, token) /\
     truthy tokErr = true /\
     addAccount penv self username password tenant loginAsServicePrincipal callback
     = Ok (CallAcquireServicePrincipalToken cfg (normalizeUserName username) password
           :: callback tokErr None)) \/
  (truthy loginAsServicePrincipal = true /\
   exists cfg tokErr token err raws,
     getAuthConfig penv self tenant VUndefined = Ok cfg /\
     acquireServicePrincipalToken_reply cfg (normalizeUserName username) password
       = (tokErr, token) /\
     truthy tokErr = false /\
     getSubscriptionsFromTenants_reply self (normalizeUserName username)
       [TenantInfo.mk tenant token] = (err, raws) /\
     addAccount penv self username password tenant loginAsServicePrincipal callback
     = Ok (CallAcquireServicePrincipalToken cfg (normalizeUserName username) password
           :: CallGetSubscriptionsFromTenants self (normalizeUserName username)
                [TenantInfo.mk tenant token]
           :: processSubscriptions self (normalizeUserName username) tenant
                (VStr "servicePrincipal") callback err raws)).
Proof.
  destruct (truthy loginAsServicePrincipal) eqn:Hsp.
  - right.
    destruct (getAuthConfig penv self tenant VUndefined) as [cfg|e] eqn:Hcfg.
    + right.
      destruct (acquireServicePrincipalToken_reply cfg (normalizeUserName username)
                  password) as [tokErr token] eqn:Htok.
      pose proof (addAccount_service_principal_path penv self username password
                    tenant loginAsServicePrincipal callback cfg tokErr token
                    Hsp Hcfg Htok) as Hrun.
      destruct (truthy tokErr) eqn:Herr.
      * left. split; [done |]. by exists cfg, tokErr, token.
      * right. split; [done |].
        destruct (getSubscriptionsFromTenants_reply self (normalizeUserName username)
                    [TenantInfo.mk tenant token]) as [err raws] eqn:Hreply.
        by exists cfg, tokErr, token, err, raws.
    + left. split; [done |]. exists e. split; [done |].
      by apply addAccount_service_principal_throws.
  - left. split; [done |].
    destruct (getSubscriptions_reply self (normalizeUserName username) password
                tenant) as [err raws] eqn:Hreply.
    exists err, raws. split; [done |]. by apply addAccount_user_path.
Qed.

Lemma processSubscriptions_recording `{Externals} (self : EnvironmentObj)
    (username tenant userType err : jsval) (raws : list jsobj) :
  exists e subs,
    processSubscriptions self username tenant userType recording err raws
    = [Callback e subs].
Proof.
  unfold processSubscriptions, recording. destruct (truthy err); eauto.
Qed.

(** X14. Every [addAccount] call that does not throw calls the callback
    exactly once, and last: the run is one or two calls to collaborators
    followed by a single call of the callback. *)
Theorem addAccount_calls_back_once `{Externals} (penv : gmap string string)
    (self : EnvironmentObj)
    (username password tenant loginAsServicePrincipal : jsval)
    (tr : list event) :
  addAccount penv self username password tenant loginAsServicePrincipal recording
    = Ok tr ->
  exists calls err subs,
    tr = (calls ++ [Callback err subs])%list /\
    Forall (fun e => is_callback e = false) calls /\
    (1 <= length calls <= 2)%nat.
Proof.
  intros Hrun.
  destruct (addAccount_cases penv self username password tenant
              loginAsServicePrincipal recording)
    as [(_ & err & raws & _ & Heq)
       | [(_ & e & _ & Heq)
         | [(_ & cfg & tokErr & token & _ & _ & _ & Heq)
           | (_ & cfg & tokErr & token & err & raws & _ & _ & _ & _ & Heq)]]];
    rewrite Heq in Hrun; try discriminate; injection Hrun as <-.
  - destruct (processSubscriptions_recording self (normalizeUserName username)
                tenant (VStr "user") err raws) as (e & subs & ->).
    exists [CallGetSubscriptions self (normalizeUserName username) password tenant],
      e, subs.
    split; [done |]. split; [by repeat constructor | simpl; lia].
  - exists [CallAcquireServicePrincipalToken cfg (normalizeUserName username) password],
      tokErr, None.
    split; [done |]. split; [by repeat constructor | simpl; lia].
  - destruct (processSubscriptions_recording self (normalizeUserName username)
                tenant (VStr "servicePrincipal") err raws) as (e & subs & ->).
    exists [CallAcquireServicePrincipalToken cfg (normalizeUserName username) password;
            CallGetSubscriptionsFromTenants self (normalizeUserName username)
              [TenantInfo.mk tenant token]], e, subs.
    split; [done |]. split; [by repeat constructor | simpl; lia].
Qed.

Lemma addAccount_calls_back_once_witness :
  exists calls err subs,
    [CallGetSubscriptions AzureCloud (VStr "alice") (VStr "pw") (VStr "tenant1");
     @Callback (stand_in lower_alice (VNull, VObj "token") (VNull, [raw_s1]))
       VNull
       (Some [(SubscriptionData.mk (VStr "s1") (VStr "Sub1")
                 (UserInfo.mk (VStr "alice") (VStr "tenant1") (VStr "user"))
                 (VStr "tenant1"), AzureCloud)])]
    = (calls ++ [Callback err subs])%list /\
    Forall (fun e => is_callback e = false) calls /\
    (1 <= length calls <= 2)%nat.
Proof.
  exact (@addAccount_calls_back_once
           (stand_in lower_alice (VNull, VObj "token") (VNull, [raw_s1]))
           ∅ AzureCloud (VStr "alice") (VStr "pw") (VStr "tenant1") (VBool false)
           _ addAccount_alice).
Defined.

(** X16. On the user path, when the subscription lookup reports an error
    the callback is called with that error and no second argument, right
    after the lookup; no list is built. *)
Theorem addAccount_user_path_error_alone `{Externals}
    (penv : gmap string string) (self : EnvironmentObj)
    (username password tenant loginAsServicePrincipal err : jsval)
    (raws : list jsobj)
    (callback : jsval -> option (list SubscriptionObj) -> list event) :
  truthy loginAsServicePrincipal = false ->
  getSubscriptions_reply self (normalizeUserName username) password tenant
    = (err, raws) ->
  truthy err = true ->
  addAccount penv self username password tenant loginAsServicePrincipal callback
  = Ok (CallGetSubscriptions self (normalizeUserName username) password tenant
        :: callback err None).
Proof.
  intros Hsp Hreply Herr.
  rewrite (addAccount_user_path penv self username password tenant
             loginAsServicePrincipal callback err raws) by done.
  by rewrite processSubscriptions_error.
Qed.

Lemma addAccount_user_path_error_alone_witness :
  @addAccount (stand_in lower_alice (VNull, VObj "token")
                 (VObj "lookup error", [raw_s1]))
    ∅ AzureCloud (VStr "alice") (VStr "pw") (VStr "tenant1") (VBool false)
    recording
  = Ok [CallGetSubscriptions AzureCloud (VStr "alice") (VStr "pw") (VStr "tenant1");
        Callback (VObj "lookup error") None].
Proof.
  apply (@addAccount_user_path_error_alone
           (stand_in lower_alice (VNull, VObj "token") (VObj "lookup error", [raw_s1]))
           ∅ AzureCloud (VStr "alice") (VStr "pw") (VStr "tenant1") (VBool false)
           (VObj "lookup error") [raw_s1] recording); reflexivity.
Defined.

(** X17. The two paths share no collaborator.  A run on the user path
    calls [getSubscriptions] and nothing else; a run on the
    service-principal path starts with the token acquisition, calls
    [getSubscriptionsFromTenants] at most after it, and never calls
    [getSubscriptions], the one function that is handed the password for
    the lookup. *)
Theorem addAccount_paths_share_no_collaborator `{Externals}
    (penv : gmap string string) (self : EnvironmentObj)
    (username password tenant loginAsServicePrincipal : jsval)
    (tr : list event) :
  addAccount penv self username password tenant loginAsServicePrincipal recording
    = Ok tr ->
  (truthy loginAsServicePrincipal = false ->
   exists cb,
     tr = [CallGetSubscriptions self (normalizeUserName username) password tenant; cb]
     /\ is_callback cb = true) /\
  (truthy loginAsServicePrincipal = true ->
   exists cfg rest,
     tr = CallAcquireServicePrincipalToken cfg (normalizeUserName username) password
          :: rest /\
     Forall (fun e => match e with
                      | CallGetSubscriptionsFromTenants _ _ _ | Callback _ _ => True
                      | _ => False
                      end) rest).
Proof.
  intros Hrun.
  destruct (addAccount_cases penv self username password tenant
              loginAsServicePrincipal recording)
    as [(Hsp & err & raws & _ & Heq)
       | [(Hsp & e & _ & Heq)
         | [(Hsp & cfg & tokErr & token & _ & _ & _ & Heq)
           | (Hsp & cfg & tokErr & token & err & raws & _ & _ & _ & _ & Heq)]]];
    rewrite Heq in Hrun; try discriminate; injection Hrun as <-;
    (split; intros Hsp'; [| try congruence]; try congruence).
  - destruct (processSubscriptions_recording self (normalizeUserName username)
                tenant (VStr "user") err raws) as (e & subs & ->).
    by exists (Callback e subs).
  - exists cfg. eexists. split; [done |]. by repeat constructor.
  - destruct (processSubscriptions_recording self (normalizeUserName username)
                tenant (VStr "servicePrincipal") err raws) as (e & subs & ->).
    exists cfg. eexists. split; [done |]. by repeat constructor.
Qed.

Lemma addAccount_paths_share_no_collaborator_witness :
  exists cb,
    [CallGetSubscriptions AzureCloud (VStr "alice") (VStr "pw") (VStr "tenant1");
     @Callback (stand_in lower_alice (VNull, VObj "token") (VNull, [raw_s1]))
       VNull
       (Some [(SubscriptionData.mk (VStr "s1") (VStr "Sub1")
                 (UserInfo.mk (VStr "alice") (VStr "tenant1") (VStr "user"))
                 (VStr "tenant1"), AzureCloud)])]
    = [CallGetSubscriptions AzureCloud (VStr "alice") (VStr "pw") (VStr "tenant1"); cb]
    /\ is_callback cb = true.
Proof.
  exact (proj1 (@addAccount_paths_share_no_collaborator
                  (stand_in lower_alice (VNull, VObj "token") (VNull, [raw_s1]))
                  ∅ AzureCloud (VStr "alice") (VStr "pw") (VStr "tenant1")
                  (VBool false) _ addAccount_alice) eq_refl).
Defined.

(** X18. On the service-principal path the token is asked for under the
    configuration of the tenant given: its tenant is that tenant when it is
    truthy, its resource and authority are those the environment reads as.
    When the acquisition succeeds, the lookup is handed one tenant entry,
    made of the tenant given and of the token just acquired, and not the
    password. *)
Theorem addAccount_service_principal_threads_token `{Externals}
    (penv : gmap string string) (self : EnvironmentObj)
    (username password tenant loginAsServicePrincipal : jsval)
    (callback : jsval -> option (list SubscriptionObj) -> list event)
    (cfg : AuthConfig.t) (tokErr token : jsval) :
  truthy loginAsServicePrincipal = true ->
  getAuthConfig penv self tenant VUndefined = Ok cfg ->
  acquireServicePrincipalToken_reply cfg (normalizeUserName username) password
    = (tokErr, token) ->
  truthy tokErr = false ->
  (exists rest,
     addAccount penv self username password tenant loginAsServicePrincipal callback
     = Ok (CallAcquireServicePrincipalToken cfg (normalizeUserName username) password
           :: CallGetSubscriptionsFromTenants self (normalizeUserName username)
                [TenantInfo.mk tenant token]
           :: rest)) /\
  (truthy tenant = true -> AuthConfig.tenantId cfg = tenant) /\
  (truthy tenant = false ->
     accessor penv self "commonTenantName" = Ok (AuthConfig.tenantId cfg)) /\
  accessor penv self "activeDirectoryResourceId" = Ok (AuthConfig.resourceId cfg) /\
  accessor penv self "activeDirectoryEndpointUrl" = Ok (AuthConfig.authorityUrl cfg).
Proof.
  intros Hsp Hcfg Htok Herr.
  split.
  - rewrite (addAccount_service_principal_path penv self username password tenant
               loginAsServicePrincipal callback cfg tokErr token) by done.
    rewrite Herr. eauto.
  - apply getAuthConfig_Ok_iff in Hcfg as (Ht & Hr & Ha & _).
    cbn [truthy] in Hr.
    split; [intros E; by rewrite E in Ht |].
    split; [intros E; by rewrite E in Ht | done].
Qed.

Lemma addAccount_service_principal_threads_token_witness :
  exists rest,
    @addAccount (stand_in lower_alice (VNull, VObj "token") (VNull, [raw_s1]))
      ∅ AzureCloud (VStr "sp1") (VStr "secret") (VStr "tenantX") (VBool true)
      recording
    = Ok (CallAcquireServicePrincipalToken
            (AuthConfig.mk (VStr "https://login.windows.net") (VStr "tenantX")
               (VStr "https://management.core.windows.net/")
               (VStr "04b07795-8ddb-461a-bbee-02f9e1bf7b46"))
            (VStr "sp1") (VStr "secret")
          :: CallGetSubscriptionsFromTenants AzureCloud (VStr "sp1")
               [TenantInfo.mk (VStr "tenantX") (VObj "token")]
          :: rest).
Proof.
  apply (@addAccount_service_principal_threads_token
           (stand_in lower_alice (VNull, VObj "token") (VNull, [raw_s1]))
           ∅ AzureCloud (VStr "sp1") (VStr "secret") (VStr "tenantX") (VBool true)
           recording _ VNull (VObj "token")).
  - reflexivity.
  - vm_compute. reflexivity.
  - reflexivity.
  - reflexivity.
Defined.



(** ** Clients and tokens *)

Lemma accessor_set_other (penv : gmap string string) (env : EnvironmentObj)
    (P : EnvironmentParameter) (v : jsval) (n : string) :
  pname P <> n -> accessor penv (set env P v) n = accessor penv env n.
Proof.
  intros Hne. unfold accessor. destruct (parameter n) as [Q|] eqn:HQ; [| done].
  unfold parameter in HQ. apply find_some in HQ as [_ Heq].
  apply String.eqb_eq in Heq. subst n.
  apply get_same_variable_same_stored; [done |].
  cbn [set values]. by rewrite lookup_insert_ne.
Qed.

(** X21. Each client is made for the endpoint of its own kind and for
    nothing else.  [getAsmClient] hands the factory the credentials and
    what [managementEndpointUrl] reads as: the text of
    [AZURE_MANAGEMENTENDPOINT_URL] when that is set and not empty,
    otherwise the value stored under [managementEndpointUrl]; when that
    stored value is [null] no client is made and the error of that
    endpoint is thrown.  What is written to any other parameter changes
    nothing.  [getArmClient] likewise with [resourceManagerEndpointUrl]
    and [AZURE_RESOURCEMANAGERENDPOINT_URL]. *)
Theorem clients_read_their_own_endpoint `{ClientExternals}
    (penv : gmap string string) (env : EnvironmentObj) (credentials : jsval) :
  (forall s, s <> "" -> penv !! "AZURE_MANAGEMENTENDPOINT_URL" = Some s ->
     getAsmClient penv env credentials
     = Ok (createSubscriptionClient credentials (VStr s))) /\
  (penv !! "AZURE_MANAGEMENTENDPOINT_URL" = None \/
   penv !! "AZURE_MANAGEMENTENDPOINT_URL" = Some "" ->
     getAsmClient penv env credentials
     = if decide (prop (values env) "managementEndpointUrl" = VNull)
       then Throw (EndpointNotDefined "managementEndpointUrl")
       else Ok (createSubscriptionClient credentials
                  (prop (values env) "managementEndpointUrl"))) /\
  (forall P v, pname P <> "managementEndpointUrl" ->
     getAsmClient penv (set env P v) credentials = getAsmClient penv env credentials) /\
  (forall s, s <> "" -> penv !! "AZURE_RESOURCEMANAGERENDPOINT_URL" = Some s ->
     getArmClient penv env credentials
     = Ok (createResourceSubscriptionClient credentials (VStr s))) /\
  (penv !! "AZURE_RESOURCEMANAGERENDPOINT_URL" = None \/
   penv !! "AZURE_RESOURCEMANAGERENDPOINT_URL" = Some "" ->
     getArmClient penv env credentials
     = if decide (prop (values env) "resourceManagerEndpointUrl" = VNull)
       then Throw (EndpointNotDefined "resourceManagerEndpointUrl")
       else Ok (createResourceSubscriptionClient credentials
                  (prop (values env) "resourceManagerEndpointUrl"))) /\
  (forall P v, pname P <> "resourceManagerEndpointUrl" ->
     getArmClient penv (set env P v) credentials = getArmClient penv env credentials).
Proof.
  split; [| split; [| split; [| split; [| split]]]].
  - intros s Hs Hvar. unfold getAsmClient, accessor. cbn [parameter parameters find
      pname String.eqb Ascii.eqb Bool.eqb].
    by rewrite (get_variable_set penv env _ s).
  - intros Hvar. unfold getAsmClient, accessor. cbn [parameter parameters find
      pname String.eqb Ascii.eqb Bool.eqb].
    rewrite get_variable_unset by exact Hvar. cbn [pname].
    by case_decide.
  - intros P v Hne. unfold getAsmClient. by rewrite accessor_set_other.
  - intros s Hs Hvar. unfold getArmClient, accessor. cbn [parameter parameters find
      pname String.eqb Ascii.eqb Bool.eqb].
    by rewrite (get_variable_set penv env _ s).
  - intros Hvar. unfold getArmClient, accessor. cbn [parameter parameters find
      pname String.eqb Ascii.eqb Bool.eqb].
    rewrite get_variable_unset by exact Hvar. cbn [pname].
    by case_decide.
  - intros P v Hne. unfold getArmClient. by rewrite accessor_set_other.
Qed.

(** X22. [acquireToken] builds the configuration of the tenant given,
    throws exactly when that cannot be built, and otherwise calls the
    token collaborator once, with the user name and the password as they
    were given (the user name is not normalised here, as it is in
    [addAccount]), and hands the collaborator's reply, error and token, to
    the callback unchanged. *)
Theorem acquireToken_passes_through `{Externals} `{ClientExternals}
    (penv : gmap string string) (env : EnvironmentObj)
    (username password tenantId : jsval)
    (callback : jsval -> jsval -> list token_event) :
  (forall e, acquireToken penv env username password tenantId callback = Throw e <->
             getAuthConfig penv env tenantId VUndefined = Throw e) /\
  (forall cfg err token,
     getAuthConfig penv env tenantId VUndefined = Ok cfg ->
     acquireToken_reply cfg username password = (err, token) ->
     acquireToken penv env username password tenantId callback
     = Ok (CallAcquireToken cfg username password :: callback err token) /\
     AuthConfig.resourceId cfg <> VNull /\
     accessor penv env "activeDirectoryResourceId" = Ok (AuthConfig.resourceId cfg)).
Proof.
  split.
  - intros e. unfold acquireToken.
    destruct (getAuthConfig penv env tenantId VUndefined); cbn [rbind];
      [done | split; intros [= ->]; reflexivity].
  - intros cfg err token Hcfg Hreply. unfold acquireToken, adal_acquireToken.
    rewrite Hcfg. cbn [rbind]. rewrite Hreply. split; [done |].
    apply getAuthConfig_Ok_iff in Hcfg as (_ & Hr & _). cbn [truthy] in Hr.
    split; [| done]. by eapply accessor_Ok_not_null; [| exact Hr].
Qed.

(** ** Query strings *)

Lemma qs_escape_cons (c : ascii) (s : string) :
  (unreserved c = true /\
   qs_escape (String c s) = String c (qs_escape s) /\
   forall rest, qs_unescape (String c rest) = String c (qs_unescape rest)) \/
  (unreserved c = false /\
   exists h l,
     qs_escape (String c s) = String "%" (String h (String l (qs_escape s))) /\
     unreserved h = true /\ unreserved l = true /\
     forall rest,
       qs_unescape (String "%" (String h (String l rest)))
       = String c (qs_unescape rest)).
Proof.
  destruct c as [b0 b1 b2 b3 b4 b5 b6 b7].
  destruct b0, b1, b2, b3, b4, b5, b6, b7;
    first [ left; split; [reflexivity |]; split; [reflexivity |];
            intros rest; reflexivity
          | right; split; [reflexivity |]; do 2 eexists;
            split; [reflexivity |]; split; [reflexivity |];
            split; [reflexivity |]; intros rest; reflexivity ].
Qed.

Lemma qs_unescape_qs_escape (s : string) : qs_unescape (qs_escape s) = s.
Proof.
  induction s as [|c s IH]; [reflexivity |].
  destruct (qs_escape_cons c s) as [(_ & -> & Hun) | (_ & h & l & -> & _ & _ & Hun)];
    rewrite Hun; by rewrite IH.
Qed.

(** Escaping and unescaping are inverse: [querystring.unescape]
    gives back every text that [querystring.escape] was applied to, so that
    two different texts are never escaped to the same one. *)
Theorem qs_unescape_escape (s : string) :
  qs_unescape (qs_escape s) = s /\
  (forall s', qs_escape s = qs_escape s' -> s = s').
Proof.
  split; [apply qs_unescape_qs_escape |].
  intros s' Heq. rewrite <- (qs_unescape_qs_escape s), Heq.
  apply qs_unescape_qs_escape.
Qed.

Lemma qs_escape_chars (s : string) :
  Forall (fun c => escaped_char c = true) (list_ascii_of_string (qs_escape s)).
Proof.
  induction s as [|c s IH]; [constructor |].
  destruct (qs_escape_cons c s) as [(Hc & -> & _) | (_ & h & l & -> & Hh & Hl & _)];
    cbn [list_ascii_of_string]; repeat constructor; try done;
    unfold escaped_char; by rewrite ?Hc, ?Hh, ?Hl.
Qed.

Lemma break_at_escaped (c : ascii) (s : string) :
  escaped_char c = false -> break_at c (qs_escape s) = None.
Proof.
  intros Hc. apply break_at_None.
  eapply Forall_impl; [apply qs_escape_chars |].
  intros x Hx ->. congruence.
Qed.

(** What [querystring.escape] returns is made of unreserved
    characters and [%] only: it holds none of [&], [=], [#], [?], [+] and
    the space, the characters that give a URL and its query their
    structure. *)
Theorem qs_escape_keeps_structure (s : string) :
  Forall (fun c => escaped_char c = true) (list_ascii_of_string (qs_escape s)) /\
  break_at "&" (qs_escape s) = None /\
  break_at "=" (qs_escape s) = None /\
  break_at "#" (qs_escape s) = None /\
  break_at "?" (qs_escape s) = None /\
  break_at "+" (qs_escape s) = None /\
  break_at " " (qs_escape s) = None.
Proof.
  split; [apply qs_escape_chars |].
  repeat split; by apply break_at_escaped.
Qed.

Lemma filter_entry_other (k : string) (kx : string * qvalue) :
  fst kx <> k ->
  List.filter (fun kv => String.eqb (fst kv) k) (entry_pairs kx) = [].
Proof.
  intros Hkx.
  assert (G : forall l : list (string * string),
             (forall kv, In kv l -> fst kv = fst kx) ->
             List.filter (fun kv => String.eqb (fst kv) k) l = []).
  { induction l as [|kv l IH]; intros Hl; [done |]. cbn [List.filter].
    rewrite (Hl kv) by by left.
    destruct (String.eqb_spec (fst kx) k); [done |].
    apply IH. intros kv' Hkv'. apply Hl. by right. }
  apply G. intros kv. apply entry_pairs_key.
Qed.

Lemma filter_key_absent (k : string) (q : query_object) :
  ~ In k (map fst q) ->
  List.filter (fun kv => String.eqb (fst kv) k) (query_pairs q) = [].
Proof.
  intros Hk. induction q as [|kx q IH]; [done |].
  rewrite query_pairs_cons, List.filter_app, IH by (intros ?; apply Hk; by right).
  rewrite app_nil_r. apply filter_entry_other. intros <-. apply Hk. by left.
Qed.

Lemma filter_key_set (k t : string) (q : query_object) :
  NoDup (map fst q) ->
  List.filter (fun kv => String.eqb (fst kv) k)
    (query_pairs (query_set k (VStr t) q)) = [(k, t)].
Proof.
  induction q as [|[k' y] q IH]; cbn [query_set map fst]; intros Hq.
  - unfold query_pairs, entry_pairs. cbn. by rewrite String.eqb_refl.
  - apply NoDup_cons in Hq as [Hk' Hq].
    destruct (String.eqb_spec k' k) as [-> | Hne]; rewrite query_pairs_cons,
      List.filter_app.
    + rewrite filter_key_absent by (by intros ?%list_elem_of_In).
      unfold entry_pairs. cbn. by rewrite String.eqb_refl.
    + rewrite (IH Hq). by rewrite filter_entry_other.
Qed.

(** X23. However often the given URL names [whr], the URL that [addRealm]
    returns names it once: of the [key=value] pieces of the query written,
    one has the key [whr], and its value is the realm.  A [whr] that was
    there, once or several times, is replaced and not added to. *)
Theorem addRealm_writes_whr_once (u text : string) (o : urlObject) (realm : jsval) :
  truthy realm = true -> stringifyPrimitive realm = Some text ->
  url_parse_string u = Some o ->
  exists pairs,
    addRealm (VStr u) realm
    = Some (Ok (VStr (url_base o +:+ "?" +:+ join "&" (map pair_piece pairs)
                      +:+ default "" (url_hash o)))) /\
    List.filter (fun kv => String.eqb (fst kv) "whr") pairs = [("whr", text)].
Proof.
  intros Hrealm Htext Hu.
  exists (query_pairs (query_set "whr" (VStr text) (url_query o))).
  split; [by apply addRealm_pairs |].
  apply filter_key_set. by destruct (url_query_parsed u o Hu).
Qed.

Lemma addRealm_writes_whr_once_witness :
  exists pairs,
    addRealm (VStr "https://portal.example/?whr=old.example&a=1&whr=older.example#top")
      (VStr "contoso.com")
    = Some (Ok (VStr ("https://portal.example/" +:+ "?" +:+
                      join "&" (map pair_piece pairs) +:+ "#top"))) /\
    List.filter (fun kv => String.eqb (fst kv) "whr") pairs = [("whr", "contoso.com")].
Proof.
  apply (addRealm_writes_whr_once
           "https://portal.example/?whr=old.example&a=1&whr=older.example#top"
           "contoso.com"
           (mkUrlObject "https://portal.example/"
              (Some "?whr=old.example&a=1&whr=older.example")
              [("whr", QArr [VStr "old.example"; VStr "older.example"]);
               ("a", QVal (VStr "1"))]
              (Some "#top"))
           (VStr "contoso.com")).
  - reflexivity.
  - reflexivity.
  - vm_compute. reflexivity.
Defined.

Example addRealm_replaces_whr :
  addRealm (VStr "https://portal.example/?whr=old.example&a=1&whr=older.example#top")
    (VStr "contoso.com")
  = Some (Ok (VStr "https://portal.example/?whr=contoso.com&a=1#top")).
Proof. vm_compute. reflexivity. Qed.

(** ** Parsing back what [url.format] wrote *)

Lemma split_on_whole (c : ascii) (a : string) :
  break_at c a = None -> split_on c a = [a].
Proof.
  induction a as [|x a IH]; cbn [break_at split_on]; [done |].
  destruct (Ascii.eqb x c); [done |].
  destruct (break_at c a) as [[? ?]|]; [done |]. intros _. by rewrite IH.
Qed.

Lemma split_on_app (c : ascii) (a b : string) :
  break_at c a = None -> split_on c (a +:+ String c b) = a :: split_on c b.
Proof.
  induction a as [|x a IH].
  - intros _. change ("" +:+ String c b) with (String c b). cbn [split_on].
    by rewrite Ascii.eqb_refl.
  - change (String x a +:+ String c b) with (String x (a +:+ String c b)).
    cbn [break_at split_on]. destruct (Ascii.eqb x c); [done |].
    destruct (break_at c a) as [[? ?]|]; [done |]. intros _. by rewrite IH.
Qed.

Lemma split_on_join (c : ascii) (l : list string) :
  l <> [] -> Forall (fun p => break_at c p = None) l ->
  split_on c (join (String c "") l) = l.
Proof.
  induction l as [|x [|y l] IH]; intros Hne Hall; [done | |].
  - apply Forall_cons in Hall as [Hx _]. by apply split_on_whole.
  - apply Forall_cons in Hall as [Hx Hall]. rewrite join_cons.
    change (String c "" +:+ join (String c "") (y :: l))
      with (String c (join (String c "") (y :: l))).
    rewrite split_on_app by done. by rewrite IH.
Qed.

Lemma break_at_join (c : ascii) (sep : string) (l : list string) :
  break_at c sep = None -> Forall (fun p => break_at c p = None) l ->
  break_at c (join sep l) = None.
Proof.
  intros Hsep. induction l as [|x [|y l] IH]; intros Hall; [done | |].
  - by apply Forall_cons in Hall as [Hx _].
  - apply Forall_cons in Hall as [Hx Hall]. rewrite join_cons.
    apply break_at_app_None. split; [done |].
    apply break_at_app_None. split; [done | by apply IH].
Qed.

Lemma pair_piece_lacks (c : ascii) (kv : string * string) :
  escaped_char c = false -> c <> "="%char -> break_at c (pair_piece kv) = None.
Proof.
  intros Hc Heq. unfold pair_piece.
  apply break_at_app_None. split; [by apply break_at_escaped |].
  apply break_at_app_None. split; [| by apply break_at_escaped].
  cbn [break_at]. destruct (Ascii.eqb_spec "=" c) as [E | _]; [| done].
  by destruct Heq.
Qed.

Lemma qs_pair_piece (kv : string * string) : qs_pair (pair_piece kv) = kv.
Proof.
  unfold qs_pair, pair_piece.
  rewrite break_at_app by (by apply break_at_escaped).
  change ("=" +:+ qs_escape (snd kv)) with (String "=" (qs_escape (snd kv))).
  rewrite break_at_head. cbn [tail_string].
  rewrite string_app_empty_r, !qs_unescape_qs_escape. by destruct kv.
Qed.

Lemma fold_pieces (acc : query_object) (pairs : list (string * string)) :
  foldl parse_step acc (map pair_piece pairs) = foldl add_pair acc pairs.
Proof.
  revert acc. induction pairs as [|kv pairs IH]; intros acc; [done |].
  cbn [map foldl]. unfold parse_step at 2. rewrite qs_pair_piece.
  destruct kv as [k v]. apply IH.
Qed.

Lemma qs_add_fresh (k : string) (v : jsval) (acc : query_object) :
  k ∉ map fst acc -> qs_add k v acc = (acc ++ [(k, QVal v)])%list.
Proof.
  induction acc as [|[k' y] acc IH]; cbn [qs_add map fst]; [done |].
  intros Hk. destruct (String.eqb_spec k' k) as [-> | Hne].
  - exfalso. apply Hk. by left.
  - cbn [app]. rewrite IH; [done |]. intros Hin. apply Hk. by right.
Qed.

Lemma qs_add_last (k : string) (v : jsval) (acc : query_object) (x : qvalue) :
  k ∉ map fst acc ->
  qs_add k v (acc ++ [(k, x)])%list =
  (acc ++ [(k, match x with
               | QVal v0 => QArr [v0; v]
               | QArr vs => QArr (vs ++ [v])
               end)])%list.
Proof.
  induction acc as [|[k' y] acc IH]; cbn [qs_add map fst app].
  - intros _. by rewrite String.eqb_refl.
  - intros Hk. destruct (String.eqb_spec k' k) as [-> | Hne].
    + exfalso. apply Hk. by left.
    + rewrite IH; [done |]. intros Hin. apply Hk. by right.
Qed.

Lemma add_pair_string (obj : query_object) (k : string) (v : jsval) :
  is_string v -> add_pair obj (k, value_text v) = qs_add k v obj.
Proof. intros [s ->]. reflexivity. Qed.

Lemma fold_array (k : string) (acc : query_object) (pre vs : list jsval) :
  k ∉ map fst acc -> Forall is_string vs ->
  foldl add_pair (acc ++ [(k, QArr pre)])%list (map (fun v => (k, value_text v)) vs)
  = (acc ++ [(k, QArr (pre ++ vs))])%list.
Proof.
  intros Hk. revert pre. induction vs as [|v vs IH]; intros pre Hvs.
  - by rewrite app_nil_r.
  - apply Forall_cons in Hvs as [Hv Hvs]. cbn [map foldl].
    rewrite add_pair_string by done.
    rewrite qs_add_last by done. rewrite IH by done.
    by rewrite <- app_assoc.
Qed.

Lemma fold_entry (acc : query_object) (kx : string * qvalue) :
  fst kx ∉ map fst acc -> parsed_value (snd kx) ->
  foldl add_pair acc (entry_pairs kx) = (acc ++ [kx])%list.
Proof.
  destruct kx as [k [v | vs]]; unfold entry_pairs; cbn [fst snd parsed_value].
  - intros Hk Hv. cbn [foldl]. rewrite add_pair_string by done.
    by apply qs_add_fresh.
  - intros Hk [Hlen Hvs]. destruct vs as [|v1 [|v2 vs]]; cbn in Hlen; try lia.
    apply Forall_cons in Hvs as [Hv1 Hvs]. apply Forall_cons in Hvs as [Hv2 Hvs].
    cbn [map foldl]. rewrite (add_pair_string acc) by done.
    rewrite qs_add_fresh by done. rewrite add_pair_string by done.
    rewrite qs_add_last by done. by rewrite fold_array.
Qed.

Lemma fold_query (q acc : query_object) :
  NoDup (map fst (acc ++ q)%list) -> Forall (fun kx => parsed_value (snd kx)) q ->
  foldl add_pair acc (query_pairs q) = (acc ++ q)%list.
Proof.
  revert acc. induction q as [|kx q IH]; intros acc Hkeys Hvals.
  - by rewrite app_nil_r.
  - apply Forall_cons in Hvals as [Hkx Hvals].
    rewrite query_pairs_cons, foldl_app. rewrite fold_entry; [| | done].
    + rewrite IH; [by rewrite <- app_assoc | by rewrite <- app_assoc | done].
    + rewrite map_app in Hkeys. apply NoDup_app in Hkeys as (_ & Hdisj & _).
      intros Hin. apply (Hdisj _ Hin). by left.
Qed.

Lemma query_pairs_nonempty (q : query_object) :
  q <> [] -> Forall (fun kx => parsed_value (snd kx)) q -> query_pairs q <> [].
Proof.
  destruct q as [|kx q]; [done |]. intros _ [Hkx _]%Forall_cons.
  rewrite query_pairs_cons. apply parsed_value_entry in Hkx.
  by destruct (entry_pairs kx).
Qed.

Lemma written_query_nonempty (pairs : list (string * string)) :
  pairs <> [] -> join "&" (map pair_piece pairs) <> "".
Proof.
  destruct pairs as [|kv pairs]; [done |]. intros _.
  apply (join_nonempty _ (pair_piece kv)); [by left | apply pair_piece_nonempty].
Qed.

Lemma written_query_lacks (c : ascii) (pairs : list (string * string)) :
  escaped_char c = false -> c <> "="%char -> c <> "&"%char ->
  break_at c (join "&" (map pair_piece pairs)) = None.
Proof.
  intros Hc Heq Hamp. apply break_at_join.
  - cbn [break_at]. destruct (Ascii.eqb_spec "&" c) as [E | _]; [| done].
    by destruct Hamp.
  - apply Forall_map, Forall_forall. intros kv _. by apply pair_piece_lacks.
Qed.

Lemma text_pieces_written (pairs : list (string * string)) :
  pairs <> [] -> (length pairs <= 1000)%nat ->
  text_pieces (join "&" (map pair_piece pairs)) = map pair_piece pairs.
Proof.
  intros Hne Hlen. pose proof (written_query_nonempty pairs Hne) as Htext.
  unfold text_pieces.
  destruct (join "&" (map pair_piece pairs)) as [|a s] eqn:Etext; [done |].
  rewrite <- Etext. rewrite split_on_join.
  - apply take_ge. rewrite length_map. lia.
  - by destruct pairs.
  - apply Forall_map, Forall_forall. intros kv _. by apply pair_piece_lacks.
Qed.

Lemma qs_parse_written (q q' : query_object) :
  q <> [] -> parsed_query q -> (length (query_pairs q) <= 1000)%nat ->
  qs_parse (join "&" (map pair_piece (query_pairs q))) = Some q' -> q' = q.
Proof.
  intros Hq [Hkeys Hvals] Hlen [-> _]%qs_parse_inv.
  rewrite text_pieces_written; [| by apply query_pairs_nonempty | done].
  rewrite fold_pieces. by apply (fold_query q []).
Qed.

Lemma url_parse_string_written (base qs : string) (hash : option string)
    (o : urlObject) :
  break_at "#" base = None -> break_at "?" base = None ->
  break_at "#" qs = None ->
  (hash = None \/ exists h, hash = Some (String "#" h)) ->
  url_parse_string (base +:+ "?" +:+ qs +:+ default "" hash) = Some o ->
  exists q, qs_parse qs = Some q /\
            o = mkUrlObject base (Some ("?" +:+ qs)) q hash.
Proof.
  intros Hb1 Hb2 Hqs Hhash. unfold url_parse_string.
  rewrite (break_at_app "#" base) by done.
  rewrite (break_at_app "#" "?") by done.
  rewrite (break_at_app "#" qs) by done.
  destruct Hhash as [-> | [h ->]].
  - change (default "" (@None string)) with "".
    cbn [break_at]. rewrite string_app_empty_r.
    rewrite (break_at_app "?" base) by done.
    change (break_at "?" ("?" +:+ qs)) with (Some ("", String "?" qs)).
    cbv beta iota. cbn [tail_string]. rewrite string_app_empty_r.
    destruct (_ && _); [| done].
    destruct (qs_parse qs) as [q|]; [| done]. intros [= <-]. by exists q.
  - change (default "" (Some (String "#" h))) with (String "#" h).
    rewrite break_at_head. cbv beta iota. rewrite string_app_empty_r.
    rewrite (break_at_app "?" base) by done.
    change (break_at "?" ("?" +:+ qs)) with (Some ("", String "?" qs)).
    cbv beta iota. cbn [tail_string]. rewrite string_app_empty_r.
    destruct (_ && _); [| done].
    destruct (qs_parse qs) as [q|]; [| done]. intros [= <-]. by exists q.
Qed.

Lemma addRealm_parses_back (u text out : string) (o o' : urlObject) (realm : jsval) :
  truthy realm = true -> stringifyPrimitive realm = Some text ->
  url_parse_string u = Some o ->
  (length (query_pairs (query_set "whr" (VStr text) (url_query o))) <= 1000)%nat ->
  addRealm (VStr u) realm = Some (Ok (VStr out)) ->
  url_parse_string out = Some o' ->
  url_base o' = url_base o /\
  url_query o' = query_set "whr" (VStr text) (url_query o) /\
  url_hash o' = url_hash o.
Proof.
  intros Hrealm Htext Hu Hlen Hout Hparse.
  rewrite (addRealm_pairs u text o) in Hout by done. injection Hout as <-.
  pose proof (url_parse_string_inv u o Hu) as (_ & _ & _ & _ & Hb1 & Hb2 & Hhash).
  pose proof (query_set_parsed "whr" text _ (url_query_parsed u o Hu)) as Hparsed.
  apply url_parse_string_written in Hparse as (q & Hq & ->); try done.
  - apply qs_parse_written in Hq as ->; try done. apply query_set_nonempty.
  - by apply written_query_lacks.
Qed.

(** X24. When the URL that [addRealm] returns is read again, it is read
    as it was written: the same text before the query, the same fragment,
    and as its query the parsed query of the given URL with [whr] set to
    the realm, whatever characters the realm is made of.  (A query of
    more than 1000 pairs is not read in full by [querystring.parse].) *)
Theorem addRealm_output_parses_back (u text out : string) (o o' : urlObject)
    (realm : jsval) :
  truthy realm = true -> stringifyPrimitive realm = Some text ->
  url_parse_string u = Some o ->
  (length (query_pairs (query_set "whr" (VStr text) (url_query o))) <= 1000)%nat ->
  addRealm (VStr u) realm = Some (Ok (VStr out)) ->
  url_parse_string out = Some o' ->
  url_base o' = url_base o /\
  url_query o' = query_set "whr" (VStr text) (url_query o) /\
  url_hash o' = url_hash o /\
  In ("whr", QVal (VStr text)) (url_query o').
Proof.
  intros Hrealm Htext Hu Hlen Hout Hparse.
  destruct (addRealm_parses_back u text out o o' realm) as (Hb & Hq & Hh); try done.
  repeat split; try done. rewrite Hq. apply query_set_In.
Qed.

Lemma addRealm_output_parses_back_witness :
  In ("whr", QVal (VStr "a&b=c #d"))
    [("LinkId", QVal (VStr "254433")); ("whr", QVal (VStr "a&b=c #d"))].
Proof.
  apply (addRealm_output_parses_back
           "http://go.microsoft.com/fwlink/?LinkId=254433" "a&b=c #d"
           "http://go.microsoft.com/fwlink/?LinkId=254433&whr=a%26b%3Dc%20%23d"
           (mkUrlObject "http://go.microsoft.com/fwlink/" (Some "?LinkId=254433")
              [("LinkId", QVal (VStr "254433"))] None)
           (mkUrlObject "http://go.microsoft.com/fwlink/"
              (Some "?LinkId=254433&whr=a%26b%3Dc%20%23d")
              [("LinkId", QVal (VStr "254433")); ("whr", QVal (VStr "a&b=c #d"))]
              None)
           (VStr "a&b=c #d")).
  - reflexivity.
  - reflexivity.
  - vm_compute. reflexivity.
  - vm_compute. lia.
  - vm_compute. reflexivity.
  - vm_compute. reflexivity.
Defined.

(** X25. The realm given last is the one that stays: adding a realm to a
    URL that [addRealm] returned gives what adding that realm to the first
    URL gives.  Adding the same realm twice is adding it once. *)
Theorem addRealm_last_realm_stays (u text1 out1 : string) (o o1 : urlObject)
    (realm1 realm2 : jsval) :
  truthy realm1 = true -> stringifyPrimitive realm1 = Some text1 ->
  truthy realm2 = true ->
  url_parse_string u = Some o ->
  (length (query_pairs (query_set "whr" (VStr text1) (url_query o))) <= 1000)%nat ->
  addRealm (VStr u) realm1 = Some (Ok (VStr out1)) ->
  url_parse_string out1 = Some o1 ->
  addRealm (VStr out1) realm2 = addRealm (VStr u) realm2 /\
  addRealm (VStr out1) realm1 = Some (Ok (VStr out1)).
Proof.
  intros Hr1 Htext1 Hr2 Hu Hlen Hout1 Hparse.
  destruct (addRealm_parses_back u text1 out1 o o1 realm1) as (Hb & Hq & Hh);
    try done.
  assert (Hagain : forall realm, truthy realm = true ->
             addRealm (VStr out1) realm = addRealm (VStr u) realm).
  { intros realm Hrealm. apply (addRealm_same_query u out1 o o1); try done.
    rewrite Hq. apply query_set_twice. }
  split; [by apply Hagain |]. by rewrite Hagain.
Qed.

Lemma addRealm_last_realm_stays_witness :
  addRealm (VStr "http://go.microsoft.com/fwlink/?LinkId=254433&whr=contoso.com")
    (VStr "fabrikam.com")
  = addRealm (VStr "http://go.microsoft.com/fwlink/?LinkId=254433")
      (VStr "fabrikam.com").
Proof.
  apply (addRealm_last_realm_stays
           "http://go.microsoft.com/fwlink/?LinkId=254433" "contoso.com"
           "http://go.microsoft.com/fwlink/?LinkId=254433&whr=contoso.com"
           (mkUrlObject "http://go.microsoft.com/fwlink/" (Some "?LinkId=254433")
              [("LinkId", QVal (VStr "254433"))] None)
           (mkUrlObject "http://go.microsoft.com/fwlink/"
              (Some "?LinkId=254433&whr=contoso.com")
              [("LinkId", QVal (VStr "254433")); ("whr", QVal (VStr "contoso.com"))]
              None)
           (VStr "contoso.com") (VStr "fabrikam.com")).
  - reflexivity.
  - reflexivity.
  - reflexivity.
  - vm_compute. reflexivity.
  - vm_compute. lia.
  - vm_compute. reflexivity.
  - vm_compute. reflexivity.
Defined.

(** X26. The URL is read first and parsed only for a realm.  When the URL
    cannot be read, [getPortalUrl] fails with that error even for a falsy
    realm; with a falsy realm what was read is returned unparsed, string or
    not, a URL or not; with a truthy realm a value that is neither a string
    nor an object makes [url.parse] throw a [TypeError]. *)
Theorem getPortalUrl_reads_then_parses_for_a_realm (penv : gmap string string)
    (env : EnvironmentObj) (realm : jsval) :
  (forall e, accessor penv env "portalUrl" = Throw e ->
     getPortalUrl penv env realm = Some (Throw e) /\
     e = EndpointNotDefined "portalUrl") /\
  (forall v, accessor penv env "portalUrl" = Ok v -> truthy realm = false ->
     getPortalUrl penv env realm = Some (Ok v)) /\
  (forall v, accessor penv env "portalUrl" = Ok v -> truthy realm = true ->
     (forall u, v <> VStr u) -> (forall ref, v <> VObj ref) ->
     exists msg, getPortalUrl penv env realm = Some (Throw (TypeError msg))).
Proof.
  unfold getPortalUrl. split; [| split].
  - intros e He. rewrite He. split; [done |]. by eapply accessor_Throw_inv.
  - intros v Hv Hrealm. rewrite Hv. by apply addRealm_falsy.
  - intros v Hv Hrealm Hstr Hobj. rewrite Hv. unfold addRealm.
    rewrite Hrealm. destruct v; cbn; eauto; [by destruct (Hstr s) | by destruct (Hobj ref)].
Qed.

Lemma canonical_prefix_lacks (base : string) :
  canonical_prefix base = true ->
  break_at "#" base = None /\ break_at "?" base = None.
Proof.
  unfold canonical_prefix. intros [Hchars _]%andb_true_iff.
  rewrite forallb_forall in Hchars.
  split; apply break_at_None, Forall_forall; intros c Hc%list_elem_of_In%Hchars ->;
    vm_compute in Hc; discriminate.
Qed.

Lemma url_parse_string_no_query (base : string) (hash : option string) :
  canonical_prefix base = true ->
  (hash = None \/ exists h, hash = Some (String "#" h) /\ plain_text h = true) ->
  url_parse_string (base +:+ default "" hash)
  = Some (mkUrlObject base (Some "") [] hash).
Proof.
  intros Hc Hhash. destruct (canonical_prefix_lacks base Hc) as [Hb1 Hb2].
  unfold url_parse_string.
  rewrite (break_at_app "#" base) by done.
  destruct Hhash as [-> | (h & -> & Hh)].
  - change (default "" (@None string)) with "". cbn [break_at].
    rewrite string_app_empty_r, Hb2, Hc. reflexivity.
  - change (default "" (Some (String "#" h))) with (String "#" h).
    rewrite break_at_head. cbv beta iota. rewrite string_app_empty_r, Hb2, Hc.
    change (plain_text (default "" (Some (String "#" h))))
      with (plain_char "#" && plain_text h).
    rewrite Hh. reflexivity.
Qed.

(** X27. For a URL with no query (scheme, host and path as [url.parse]
    writes them back, see [canonical_prefix]), adding a realm puts
    [?whr=] and the escaped realm after what the URL had before its
    fragment, and the fragment, when there is one, stays last. *)
Theorem addRealm_on_url_without_query (base text : string) (hash : option string)
    (realm : jsval) :
  canonical_prefix base = true ->
  (hash = None \/ exists h, hash = Some (String "#" h) /\ plain_text h = true) ->
  truthy realm = true -> stringifyPrimitive realm = Some text ->
  addRealm (VStr (base +:+ default "" hash)) realm
  = Some (Ok (VStr (base +:+ "?whr=" +:+ qs_escape text +:+ default "" hash))).
Proof.
  intros Hc Hhash Hrealm Htext.
  rewrite (addRealm_pairs _ text (mkUrlObject base (Some "") [] hash));
    [| done | done | by apply url_parse_string_no_query].
  reflexivity.
Qed.

Lemma addRealm_on_url_without_query_witness :
  addRealm (VStr "https://manage.windowsazure.com/#Workspaces") (VStr "contoso.com")
  = Some (Ok (VStr "https://manage.windowsazure.com/?whr=contoso.com#Workspaces")).
Proof.
  apply (addRealm_on_url_without_query "https://manage.windowsazure.com/"
           "contoso.com" (Some "#Workspaces") (VStr "contoso.com")).
  - vm_compute. reflexivity.
  - right. eexists. split; [reflexivity | vm_compute; reflexivity].
  - reflexivity.
  - reflexivity.
Defined.
